(** * A shallow embedding of the core of the AIN blockchain node

    The development follows three source files:
    - the block store ([Blockchain]: [lastBlock], [addNewBlock], [merge],
      [requestBlockchainSection], ...),
    - the node state reconstructor ([Node]: [getNonce], [reconstruct], ...),
    - the consensus engine ([Consensus]: [selectProposer],
      [handleConsensusMessage], [scheduleTimeout], ...).

    JavaScript objects become records, [null] becomes [None], numbers that
    hold integers become [Z] (with the sums that the runtime rounds written
    as [addNumber]), an object whose keys are enumerated becomes the list of
    its entries in the order of enumeration, and a method that mutates
    [this] becomes a function from the state before the call to the outcome
    of the call.
    Collaborators whose code lives outside these three files (the database,
    the transaction pool, the block class, the file system, the PRNG, the
    configuration constants) are interfaces, given as type classes. *)

From Stdlib Require Import ZArith QArith String List Lia.
From stdpp Require Import base option list gmap strings sorting pretty.

Close Scope Q_scope.
Local Open Scope Z_scope.

(** ** Outcome of a method call

    A call either returns a value or throws; the mutations made before the
    throw stay visible, so both outcomes carry the state. *)

Inductive Outcome (S A : Type) : Type :=
| Returned (a : A) (s : S)
| Thrown (s : S).
Arguments Returned {S A} a s.
Arguments Thrown {S A} s.

Definition M (S A : Type) : Type := S -> Outcome S A.

Global Instance M_ret {S} : MRet (M S) := fun A a s => Returned a s.

Global Instance M_bind {S} : MBind (M S) := fun A B k m s =>
  match m s with
  | Returned a s' => k a s'
  | Thrown s' => Thrown s'
  end.

Definition modify {S} (f : S -> S) : M S unit := fun s => Returned tt (f s).

(** The state an outcome leaves behind, and the value when there is one. *)
Definition stateOf {S A} (o : Outcome S A) : S :=
  match o with Returned _ s => s | Thrown s => s end.

Definition valueOf {S A} (o : Outcome S A) : option A :=
  match o with Returned a _ => Some a | Thrown _ => None end.

(** ** Numbers

    A number of the runtime is a double. The numbers that hold integers
    are kept as [Z]; a sum of two of them is the exact sum rounded to the
    nearest double, ties to the even significand, which is the exact sum
    as long as it does not pass [2 ^ 53] in magnitude. (Magnitudes from
    [2 ^ 1024] on, where the runtime answers [Infinity], are outside the
    model.) *)

(** The integer nearest to [n / d], the even one of two that are equally
    near, for [0 <= n] and [0 < d]. *)
Definition roundHalfEven (n d : Z) : Z :=
  let q := n / d in
  let r := n mod d in
  if 2 * r <? d then q
  else if d <? 2 * r then q + 1
  else if Z.even q then q else q + 1.

(** The double nearest to the integer [v]. *)
Definition roundInteger (v : Z) : Z :=
  let a := Z.abs v in
  if a <=? 2 ^ 53 then v
  else
    let e := Z.log2 a - 52 in
    Z.sgn v * (roundHalfEven a (2 ^ e) * 2 ^ e).

(** [x + y] on numbers that hold integers. *)
Definition addNumber (x y : Z) : Z := roundInteger (x + y).

(** The double nearest to the rational [x], for the doubles that are not
    integers (a sample of the generator, a product): 53 significant bits
    from the leading one, or what is left of them at the exponent [-1074].
    *)
Definition roundDouble (x : Q) : Q :=
  let n := Z.abs (Qnum x) in
  let d := Z.pos (Qden x) in
  if n =? 0 then 0%Q
  else
    let l := Z.log2 n - Z.log2 d in
    let leading :=
      if (if 0 <=? l then d * 2 ^ l <=? n else d <=? n * 2 ^ (- l)) then l else l - 1 in
    let e := Z.max (leading - 52) (-1074) in
    let m :=
      if 0 <=? e then roundHalfEven n (d * 2 ^ e)
      else roundHalfEven (n * 2 ^ (- e)) d in
    let r :=
      if 0 <=? e then inject_Z (m * 2 ^ e)
      else Qmake m (Z.to_pos (2 ^ (- e))) in
    if Qnum x <? 0 then Qopp r else r.

(** ** Transactions and blocks *)

Record Transaction : Type := mkTransaction {
  tx_address : string;
  tx_nonce : Z;
  tx_operation : string
}.

(** [validators] is an object from addresses to stakes: its entries, in the
    order in which [Object.keys] and [Object.values] enumerate them (the
    order of insertion, for keys that are no array indices).
    [instanceOfBlock] records the answer of [block instanceof Block]. *)
Record Block : Type := mkBlock {
  number : Z;
  hash : string;
  last_hash : string;
  timestamp : Z;
  transactions : list Transaction;
  proposer : string;
  validators : list (string * Z);
  instanceOfBlock : bool
}.

(** ** Collaborators outside the three source files *)

(** The static methods of the block class. *)
Class BlockApi : Type := {
  parse : Block -> Block;
  genesis : Block;
  validateHashes : Block -> bool;
  getFileName : Block -> string
}.

(** The key/value database, as values: executing on one db leaves every
    other db as it was. [setDbToSnapshot snapshot live] is the live db after
    [live.setDbToSnapshot(snapshot)]; [getDepositAccount db addr] is the
    [{value, expire_at}] pair read by [getValue] at
    [/deposit_accounts/consensus/<addr>]. *)
Class DbApi : Type := {
  DB : Type;
  newDB : DB;
  executeTransactionList : list Transaction -> DB -> DB;
  setDbToSnapshot : option DB -> DB -> DB;
  getDepositAccount : DB -> string -> option (Z * Z)
}.

(** The transaction pool. *)
Class TxPoolApi : Type := {
  TP : Type;
  newTP : TP;
  getValidTransactions : TP -> list Transaction;
  cleanUpForNewBlock : Block -> TP -> TP;
  updateNonceTrackers : list Transaction -> TP -> TP
}.

(** The file system under the block directory: [fs.existsSync],
    [fs.mkdirSync], [rimraf.sync], the zipped write of [writeChain],
    [Block.loadBlock], and the globs of [BlockFilePatterns]. *)
Class FsApi : Type := {
  Disk : Type;
  BLOCKCHAINS_DIR : string;
  pathResolve : string -> string -> string;
  existsSync : Disk -> string -> bool;
  mkdirSync : string -> Disk -> Disk;
  rimraf : string -> Disk -> Disk;
  saveBlock : string -> Block -> Disk -> Disk;
  loadBlock : Disk -> string -> Block;
  globAllBlockFiles : Disk -> string -> list string;
  globBlockFilesInRange : Disk -> string -> Z -> Z -> list string;
  naturalSort : list string -> list string
}.

(** ** The block store *)

Definition CHAIN_SUBSECT_LENGTH : Z := 20.

Record Blockchain `{DbApi, FsApi} : Type := mkBlockchain {
  chain : list Block;
  blockchainDir : string;
  backupDb : option DB;
  syncedAfterStartup : bool;
  disk : Disk
}.

Section BlockStore.
Context `{BlockApi, DbApi, FsApi}.

Definition set_chain (c : list Block) (bc : Blockchain) : Blockchain :=
  mkBlockchain _ _ c (blockchainDir bc) (backupDb bc) (syncedAfterStartup bc) (disk bc).

Definition set_backupDb (d : option DB) (bc : Blockchain) : Blockchain :=
  mkBlockchain _ _ (chain bc) (blockchainDir bc) d (syncedAfterStartup bc) (disk bc).

Definition set_syncedAfterStartup (b : bool) (bc : Blockchain) : Blockchain :=
  mkBlockchain _ _ (chain bc) (blockchainDir bc) (backupDb bc) b (disk bc).

Definition set_disk (d : Disk) (bc : Blockchain) : Blockchain :=
  mkBlockchain _ _ (chain bc) (blockchainDir bc) (backupDb bc) (syncedAfterStartup bc) d.

(** [constructor(blockchainDir)], on the file system [d]. *)
Definition newBlockchain (dir : string) (d : Disk) : Blockchain :=
  mkBlockchain _ _ [] dir None false d.

Definition lastBlock (bc : Blockchain) : option Block := last (chain bc).

Definition lastBlockNumber (bc : Blockchain) : Z :=
  match lastBlock bc with
  | None => -1
  | Some b => number b
  end.

Definition lastBlockTimestamp (bc : Blockchain) : Z :=
  match lastBlock bc with
  | None => -1
  | Some b => timestamp b
  end.

Definition setBackupDb (d : DB) : M Blockchain unit := fun bc =>
  match backupDb bc with
  | Some _ => Thrown bc
  | None => Returned tt (set_backupDb (Some d) bc)
  end.

Definition _blockchainDir (bc : Blockchain) : string :=
  pathResolve BLOCKCHAINS_DIR (blockchainDir bc).

Definition pathToBlock (bc : Blockchain) (block : Block) : string :=
  pathResolve (_blockchainDir bc) (getFileName block).

Definition createBlockchainDir (bc : Blockchain) : bool * Blockchain :=
  let dirs :=
    if String.eqb (blockchainDir bc) "" then [BLOCKCHAINS_DIR]
    else [BLOCKCHAINS_DIR; _blockchainDir bc] in
  let '(created, d) :=
    foldl (fun '(created, d) directory =>
             if existsSync d directory then (created, d)
             else (true, mkdirSync directory d))
          (false, disk bc) dirs in
  (created, set_disk d bc).

Definition writeChain (bc : Blockchain) : Blockchain :=
  set_disk
    (foldl (fun d block =>
              if existsSync d (pathToBlock bc block) then d
              else saveBlock (pathToBlock bc block) block d)
           (disk bc) (chain bc))
    bc.

Definition getAllBlockFiles (d : Disk) (chainPath : string) : list string :=
  naturalSort (globAllBlockFiles d chainPath).

Definition getBlockFiles (bc : Blockchain) (from to : Z) : list string :=
  naturalSort (globBlockFilesInRange (disk bc) (_blockchainDir bc) from to).

Definition getBlockByNumber (bc : Blockchain) (n : Z) : option Block :=
  match last (getBlockFiles bc n (n + 1)) with
  | None => None
  | Some blockFileName => Some (loadBlock (disk bc) blockFileName)
  end.

(** The loop [while (this.chain.length > 10)] of [addNewBlock]: the oldest
    block is shifted out, then its transactions go to the snapshot db; with
    no snapshot db bound the call on [null] throws after the shift. *)
Fixpoint shiftOldBlocks (c : list Block) (snapshot : option DB)
  : Outcome (list Block * option DB) unit :=
  match c with
  | [] => Returned tt ([], snapshot)
  | block :: rest =>
      if (10 <? Z.of_nat (length c)) then
        match snapshot with
        | None => Thrown (rest, None)
        | Some d =>
            shiftOldBlocks rest (Some (executeTransactionList (transactions block) d))
        end
      else Returned tt (c, snapshot)
  end.

(** [if (!(block instanceof Block)) block = Block.parse(block)] *)
Definition asBlock (block : Block) : Block :=
  if instanceOfBlock block then block else parse block.

(** The snapshot db after the transaction lists of [shifted] were executed
    on it, oldest block first. *)
Definition applyShifted (shifted : list Block) (d : DB) : DB :=
  foldl (fun d block => executeTransactionList (transactions block) d) d shifted.

Definition addNewBlock (block : option Block) : M Blockchain bool := fun bc =>
  match block with
  | None => Returned false bc
  | Some block =>
      if negb (number block =? lastBlockNumber bc + 1) then Returned false bc
      else
        let block := asBlock block in
        match shiftOldBlocks (chain bc ++ [block]) (backupDb bc) with
        | Thrown (c, d) => Thrown (set_backupDb d (set_chain c bc))
        | Returned _ (c, d) =>
            Returned true (writeChain (set_backupDb d (set_chain c bc)))
        end
  end.

Fixpoint isValidChainSubsection (chainSubSection : list Block) : bool :=
  match chainSubSection with
  | prev :: (block :: _) as rest =>
      if negb (String.eqb (last_hash block) (hash (parse prev)))
         || negb (validateHashes block)
      then false
      else isValidChainSubsection rest
  | _ => true
  end.

(** [chain[0]] of an empty array is [undefined]; reading the hash of its
    parse has no block to read from, and the model lets that call throw
    ([None]). *)
Definition isValidChain (c : list Block) : option bool :=
  match c with
  | [] => None
  | first :: _ =>
      let firstBlock := parse first in
      if negb (String.eqb (hash firstBlock) (hash genesis)) then Some false
      else if negb (validateHashes firstBlock) then Some false
      else Some (isValidChainSubsection c)
  end.

(** [static loadChain(chainPath)], on the file system. *)
Definition loadChain (chainPath : string) : M Disk (option (list Block)) := fun d =>
  let newChain := map (loadBlock d) (getAllBlockFiles d chainPath) in
  match isValidChain newChain with
  | None => Thrown d
  | Some true => Returned (Some newChain) d
  | Some false => Returned None (rimraf chainPath d)
  end.

Definition init (isFirstNode : bool) : M Blockchain unit := fun bc =>
  let '(created, bc) := createBlockchainDir bc in
  if created then
    if isFirstNode then Returned tt (writeChain (set_chain [genesis] bc))
    else Returned tt bc
  else
    match loadChain (_blockchainDir bc) (disk bc) with
    | Thrown d => Thrown (set_disk d bc)
    | Returned (Some newChain) d => Returned tt (set_chain newChain (set_disk d bc))
    | Returned None d => Returned tt (set_disk d bc)
    end.

(** What [requestBlockchainSection] hands back: [undefined] (the bare
    [return]), [null], or an array of blocks. *)
Inductive SectionReply : Type :=
| ReplyUndefined
| ReplyNull
| ReplyBlocks (blocks : list Block).

Definition isSubstring (needle haystack : string) : bool :=
  match String.index 0 needle haystack with
  | Some _ => true
  | None => false
  end.

(** [refBlock ? refBlock.number : 0] *)
Definition refBlockNumberOf (refBlock : option Block) : Z :=
  match refBlock with Some b => number b | None => 0 end.

Definition requestBlockchainSection (refBlock : option Block)
  : M Blockchain SectionReply := fun bc =>
  let refBlockNumber := refBlockNumberOf refBlock in
  let blockFiles := getBlockFiles bc refBlockNumber (refBlockNumber + CHAIN_SUBSECT_LENGTH) in
  let invalidRequest :=
    match last blockFiles, head blockFiles, refBlock with
    | Some lastFile, Some firstFile, Some b =>
        (refBlockNumber <? number (loadBlock (disk bc) lastFile))
        && negb (isSubstring (getFileName b) firstFile)
    | _, _, _ => false
    end in
  if invalidRequest then Returned ReplyUndefined bc
  else
    let refBlockHash := match refBlock with Some b => Some (hash b) | None => None end in
    match lastBlock bc with
    | None => Thrown bc
    | Some lb =>
        if decide (refBlockHash = Some (hash lb)) then Returned (ReplyBlocks [lb]) bc
        else
          let chainSubSection := map (loadBlock (disk bc)) blockFiles in
          match chainSubSection with
          | [] => Returned ReplyNull bc
          | _ => Returned (ReplyBlocks chainSubSection) bc
          end
    end.

(** The loop of [merge] that appends the received blocks. *)
Fixpoint mergeBlocks (blocks : list Block) : M Blockchain bool :=
  match blocks with
  | [] => mret true
  | block :: rest =>
      addNewBlock (Some block) ≫= fun added : bool =>
      if added then mergeBlocks rest else mret false
  end.

(** [if (lastBlockHash)]: neither [null] nor the empty string. *)
Definition truthyString (s : option string) : bool :=
  match s with
  | Some h => negb (String.eqb h "")
  | None => false
  end.

Definition markSynced (bc : Blockchain) : Blockchain :=
  if syncedAfterStartup bc then bc else set_syncedAfterStartup true bc.

Definition merge (chainSubSection : list Block) : M Blockchain bool := fun bc =>
  match last chainSubSection, chainSubSection with
  | Some lastReceived, first :: others =>
      if number lastReceived <? lastBlockNumber bc then Returned false bc
      else if number lastReceived =? lastBlockNumber bc then Returned false (markSynced bc)
      else
        let firstBlock := parse first in
        let lastBlockHash :=
          if 0 <=? lastBlockNumber bc then hash <$> lastBlock bc else None in
        let notColdStart := truthyString lastBlockHash in
        if notColdStart && negb (bool_decide (lastBlockHash = Some (hash firstBlock)))
        then Returned false bc
        else if negb notColdStart && negb (String.eqb (last_hash firstBlock) "")
        then Returned false bc
        else if negb (isValidChainSubsection chainSubSection) then Returned false bc
        else mergeBlocks (if notColdStart then others else chainSubSection) bc
  | _, _ => Returned false (markSynced bc)
  end.



End BlockStore.

(** ** The node *)

Record Account : Type := mkAccount {
  acc_address : string;
  private_key : string
}.

(** [ainUtil.areSameAddresses]. *)
Class AddressApi : Type := {
  areSameAddresses : string -> string -> bool
}.

Record Node `{DbApi, FsApi, TxPoolApi} : Type := mkNode {
  bc : Blockchain;
  tp : TP;
  db : DB;
  nonce : option Z;
  initialized : bool;
  account : Account
}.

Section NodeState.
Context `{BlockApi, DbApi, FsApi, TxPoolApi, AddressApi}.

Definition set_bc (b : Blockchain) (n : Node) : Node :=
  mkNode _ _ _ b (tp n) (db n) (nonce n) (initialized n) (account n).

Definition set_tp (t : TP) (n : Node) : Node :=
  mkNode _ _ _ (bc n) t (db n) (nonce n) (initialized n) (account n).

Definition set_db (d : DB) (n : Node) : Node :=
  mkNode _ _ _ (bc n) (tp n) d (nonce n) (initialized n) (account n).

Definition set_nonce (z : option Z) (n : Node) : Node :=
  mkNode _ _ _ (bc n) (tp n) (db n) z (initialized n) (account n).

Definition set_initialized (b : bool) (n : Node) : Node :=
  mkNode _ _ _ (bc n) (tp n) (db n) (nonce n) b (account n).

(** [constructor], for the directory name [String(PORT)] and the account
    picked by [ACCOUNT_INDEX]. *)
Definition newNode (port : string) (d : Disk) (a : Account) : Node :=
  mkNode _ _ _ (newBlockchain port d) newTP newDB None false a.

(** A method of [this.bc] run on the node. *)
Definition onBc {A} (m : M Blockchain A) : M Node A := fun n =>
  match m (bc n) with
  | Returned a b => Returned a (set_bc b n)
  | Thrown b => Thrown (set_bc b n)
  end.

(** The test of the inner loop of [getNonce]: a transaction of the local
    account that carries a nonce. *)
Definition isNoncedBy (local : string) (tx : Transaction) : bool :=
  areSameAddresses (tx_address tx) local && (-1 <? tx_nonce tx).

(** The inner loop of [getNonce]: [j] runs from the last transaction of a
    block down to the first; [txs] is that order. *)
Fixpoint scanTransactions (local : string) (txs : list Transaction) (nonce : Z) : Z :=
  match txs with
  | [] => nonce
  | tx :: rest =>
      if isNoncedBy local tx then addNumber (tx_nonce tx) 1
      else scanTransactions local rest nonce
  end.

(** The outer loop of [getNonce]: [i] runs from the last block of the
    in-memory chain down to the first; [blocks] is that order. *)
Fixpoint scanBlocks (local : string) (blocks : list Block) (nonce : Z) : Z :=
  match blocks with
  | [] => nonce
  | block :: rest =>
      let nonce := scanTransactions local (reverse (transactions block)) nonce in
      if 0 <? nonce then nonce else scanBlocks local rest nonce
  end.

Definition getNonce (n : Node) : Z :=
  scanBlocks (acc_address (account n)) (reverse (chain (bc n))) 0.

(** The transactions of the in-memory chain, oldest first. *)
Definition chainTransactions (c : list Block) : list Transaction :=
  concat (map transactions c).

(** The nonces that [getNonce] looks at, oldest first. *)
Definition localNonces (local : string) (c : list Block) : list Z :=
  tx_nonce <$> filter (fun tx => isNoncedBy local tx = true) (chainTransactions c).

Definition maximum (l : list Z) : option Z :=
  foldr (fun x acc => Some (match acc with Some m => Z.max x m | None => x end)) None l.

Definition executeChainOnDb (n : Node) : Node :=
  foldl (fun n block =>
           let transactions := transactions block in
           set_tp (updateNonceTrackers transactions (tp n))
                  (set_db (executeTransactionList transactions (db n)) n))
        n (chain (bc n)).

(** The live db after the transaction lists of [blocks] were executed on
    it in order, and the pool after it saw them. *)
Definition replayBlocks (blocks : list Block) (d : DB) : DB :=
  foldl (fun d block => executeTransactionList (transactions block) d) d blocks.

Definition trackBlocks (blocks : list Block) (pool : TP) : TP :=
  foldl (fun pool block => updateNonceTrackers (transactions block) pool) pool blocks.

Definition reconstruct (n : Node) : Node :=
  let n := set_db (setDbToSnapshot (backupDb (bc n)) (db n)) n in
  let n := executeChainOnDb n in
  set_db (executeTransactionList (getValidTransactions (tp n)) (db n)) n.

Definition Node_init (isFirstNode : bool) : M Node unit :=
  onBc (init isFirstNode) ;;
  onBc (setBackupDb newDB) ;;
  modify (fun n => set_nonce (Some (getNonce n)) n) ;;
  modify reconstruct ;;
  modify (set_initialized true).

Definition Node_addNewBlock (block : option Block) : M Node bool :=
  onBc (addNewBlock block) ≫= fun added : bool =>
  if added then
    match block with
    | Some b =>
        modify (fun n => set_tp (cleanUpForNewBlock b (tp n)) n) ;;
        modify reconstruct ;;
        mret true
    | None => mret true
    end
  else mret false.

End NodeState.

(** ** The consensus engine *)

(** The constants of [constants.js] and [consensus/constants.js]. *)
Class Config : Type := {
  STAKE : Z;
  MAX_CONSENSUS_STATE_DB : Z;
  TRANSITION_TIMEOUT_MS : Z;
  PROPOSAL_TIMEOUT_MS : Z;
  DAY_MS : Z
}.

(** [seedrandom(seed)()]: the first sample of the generator seeded with
    [seed]. A double is a rational number. *)
Class Prng : Type := {
  seedrandom : string -> Q
}.

(** [x * y] on doubles: the product as the runtime rounds it. *)
Class DoubleArith : Type := {
  mulDouble : Q -> Q -> Q
}.

Inductive ConsensusStatus : Type := STARTING | INITIALIZED | RUNNING | STOPPED.

Inductive ConsensusMessageType : Type :=
| PROPOSE
| OtherMessageType (name : string).

Record ConsensusMessage : Type := mkMessage {
  msg_value : option Block;
  msg_type : ConsensusMessageType
}.

Record ConsensusState : Type := mkState {
  state_number : Z;
  state_round : Z;
  state_proposer : option string
}.

Record TimeoutInfo : Type := mkTimeoutInfo {
  ti_number : Z;
  ti_round : Z
}.

(** The two closures the engine hands to [setTimeout]. *)
Inductive Callback : Type :=
| CallTryPropose
| CallHandleTimeout (timeoutInfo : TimeoutInfo).

Record Timer : Type := mkTimer {
  timer_id : nat;
  timer_callback : Callback;
  timer_durationMs : Z
}.

(** The calls made on the server object, in order. *)
Inductive ServerCall : Type :=
| RequestChainSubsection (refBlock : option Block)
| BroadcastConsensusMessage (msg : ConsensusMessage)
| ExecuteAndBroadcastTransaction (tx : Transaction)
| ExecuteTransaction (tx : Transaction).

(** The engine with what it reaches: its node, the pending timers of the
    runtime ([timers], [nextTimerId]), the calls it made on the server
    ([serverCalls]) and the wall clock read by [Date.now()]. *)
Record Consensus `{DbApi, FsApi, TxPoolApi} : Type := mkConsensus {
  node : Node;
  status : ConsensusStatus;
  statusChangedBlockNumber : Z;
  setter : string;
  timeoutId : option nat;
  timeoutInfo : option TimeoutInfo;
  state : ConsensusState;
  timers : list Timer;
  nextTimerId : nat;
  serverCalls : list ServerCall;
  clock : Z
}.

(** What the block class, the transaction layer and the server do for the
    engine: [Block.validateProposedBlock(block, bc)], the signed registration
    transaction that [createTransaction] returns for
    [/consensus/number/<n>/register/<addr>], and the effect on the node of a
    transaction the server executes. *)
Class ServerApi `{DbApi, FsApi, TxPoolApi} : Type := {
  validateProposedBlock : Block -> Blockchain -> bool;
  registerTransaction : Account -> Block -> Z -> Transaction;
  serverExecute : Transaction -> Node -> Node
}.

Section ProposerElection.
Context `{Prng, DoubleArith}.

(** [Object.keys(validators).sort()]: the keys in ascending order of their
    character codes. *)
Definition alphabeticallyOrderedValidators (validators : list (string * Z))
  : list string :=
  merge_sort String.le (fst <$> validators).

(** [Object.values(validators).reduce((a, b) => a + b, 0)]: the values in
    the order of enumeration, each sum rounded. *)
Definition totalAtStake (validators : list (string * Z)) : Z :=
  foldl addNumber 0 (snd <$> validators).

(** [validators[addr]], for an address that is a key; 0 stands for
    [undefined]. *)
Fixpoint stakeOf (validators : list (string * Z)) (addr : string) : Z :=
  match validators with
  | [] => 0
  | (key, stake) :: rest =>
      if String.eqb key addr then stake else stakeOf rest addr
  end.

(** [cumulative > targetValue] *)
Definition exceeds (cumulative : Z) (targetValue : Q) : bool :=
  negb (Qle_bool (inject_Z cumulative) targetValue).

(** The [for] loop of [selectProposer]; [cumulative += ...] is a rounded
    sum. *)
Fixpoint walkValidators (validators : list (string * Z)) (targetValue : Q)
    (cumulative : Z) (addrs : list string) : option string :=
  match addrs with
  | [] => None
  | addr :: rest =>
      let cumulative := addNumber cumulative (stakeOf validators addr) in
      if exceeds cumulative targetValue then Some addr
      else walkValidators validators targetValue cumulative rest
  end.

(** The loop again, counting the evaluations of [cumulative > targetValue]
    beside the answer. *)
Fixpoint walkCounting (validators : list (string * Z)) (targetValue : Q)
    (cumulative : Z) (addrs : list string) : option string * nat :=
  match addrs with
  | [] => (None, 0%nat)
  | addr :: rest =>
      let cumulative := addNumber cumulative (stakeOf validators addr) in
      if exceeds cumulative targetValue then (Some addr, 1%nat)
      else
        let '(found, comparisons) :=
          walkCounting validators targetValue cumulative rest in
        (found, S comparisons)
  end.

(** The sum of the stakes of [addrs] as an integer, without rounding: what
    the statements below compare the rounded sums of the code with. *)
Fixpoint cumulativeStake (validators : list (string * Z)) (addrs : list string) : Z :=
  match addrs with
  | [] => 0
  | addr :: rest => stakeOf validators addr + cumulativeStake validators rest
  end.

(** The sums of the code are exact on [validators]: no stake is negative
    and the stakes add up to [2 ^ 53] at most. *)
Definition exactStakes (validators : list (string * Z)) : Prop :=
  (forall (addr : string) (stake : Z), (addr, stake) ∈ validators -> 0 <= stake)
  /\ foldr Z.add 0 (snd <$> validators) <= 2 ^ 53.

Definition seedOf (seedBlockHash : string) (round : Z) : string :=
  (seedBlockHash ++ pretty round)%string.

Definition targetValueOf (validators : list (string * Z)) (seed : string) : Q :=
  mulDouble (seedrandom seed) (inject_Z (totalAtStake validators)).

(** [selectProposer] from the seed on, for a non-empty validator set. *)
Definition selectProposerWith (validators : list (string * Z))
    (seedBlockHash : string) (round : Z) : option string :=
  let seed := seedOf seedBlockHash round in
  walkValidators validators (targetValueOf validators seed) 0
                 (alphabeticallyOrderedValidators validators).

End ProposerElection.

Section Engine.
Context `{BlockApi, DbApi, FsApi, TxPoolApi, AddressApi, Config, Prng, DoubleArith,
          !ServerApi}.

Definition set_node (n : Node) (c : Consensus) : Consensus :=
  mkConsensus _ _ _ n (status c) (statusChangedBlockNumber c) (setter c)
    (timeoutId c) (timeoutInfo c) (state c) (timers c) (nextTimerId c)
    (serverCalls c) (clock c).

Definition set_status (s : ConsensusStatus) (n : Z) (by_ : string) (c : Consensus)
  : Consensus :=
  mkConsensus _ _ _ (node c) s n by_ (timeoutId c) (timeoutInfo c) (state c)
    (timers c) (nextTimerId c) (serverCalls c) (clock c).

Definition set_timeout (id : option nat) (info : option TimeoutInfo) (c : Consensus)
  : Consensus :=
  mkConsensus _ _ _ (node c) (status c) (statusChangedBlockNumber c) (setter c)
    id info (state c) (timers c) (nextTimerId c) (serverCalls c) (clock c).

Definition set_state (s : ConsensusState) (c : Consensus) : Consensus :=
  mkConsensus _ _ _ (node c) (status c) (statusChangedBlockNumber c) (setter c)
    (timeoutId c) (timeoutInfo c) s (timers c) (nextTimerId c)
    (serverCalls c) (clock c).

Definition set_timers (ts : list Timer) (next : nat) (c : Consensus) : Consensus :=
  mkConsensus _ _ _ (node c) (status c) (statusChangedBlockNumber c) (setter c)
    (timeoutId c) (timeoutInfo c) (state c) ts next (serverCalls c) (clock c).

Definition set_serverCalls (calls : list ServerCall) (c : Consensus) : Consensus :=
  mkConsensus _ _ _ (node c) (status c) (statusChangedBlockNumber c) (setter c)
    (timeoutId c) (timeoutInfo c) (state c) (timers c) (nextTimerId c)
    calls (clock c).

(** A method of [this.node] run on the engine. *)
Definition onNode {A} (m : M Node A) : M Consensus A := fun c =>
  match m (node c) with
  | Returned a n => Returned a (set_node n c)
  | Thrown n => Thrown (set_node n c)
  end.

(** [setTimeout(callback, durationMs)]: the runtime arms a timer and hands
    back its handle; handles are numbered in the order they are made. *)
Definition setTimeout (callback : Callback) (durationMs : Z) (c : Consensus)
  : nat * Consensus :=
  let id := nextTimerId c in
  (id, set_timers (timers c ++ [mkTimer id callback durationMs]) (S id) c).

(** [clearTimeout(id)] *)
Definition clearTimeout (id : nat) (c : Consensus) : Consensus :=
  set_timers (filter (fun t => timer_id t ≠ id) (timers c)) (nextTimerId c) c.

Definition callServer (call : ServerCall) (c : Consensus) : Consensus :=
  set_serverCalls (serverCalls c ++ [call]) c.

(** [this.server.requestChainSubsection(refBlock)] *)
Definition requestChainSubsection (refBlock : option Block) (c : Consensus) : Consensus :=
  callServer (RequestChainSubsection refBlock) c.

(** [this.server.broadcastConsensusMessage(msg)] *)
Definition broadcastConsensusMessage (msg : ConsensusMessage) (c : Consensus) : Consensus :=
  callServer (BroadcastConsensusMessage msg) c.

(** [this.server.executeAndBroadcastTransaction(tx, MessageTypes.TRANSACTION)] *)
Definition executeAndBroadcastTransaction (tx : Transaction) (c : Consensus) : Consensus :=
  set_node (serverExecute tx (node c)) (callServer (ExecuteAndBroadcastTransaction tx) c).

Definition setStatus (s : ConsensusStatus) (by_ : string) (c : Consensus) : Consensus :=
  set_status s (lastBlockNumber (bc (node c))) by_ c.

Definition getValidatorsAtNumber (c : Consensus) (n : Z)
  : option (list (string * Z)) :=
  if n =? 1 then
    Some (if 0 <? STAKE then [(acc_address (account (node c)), STAKE)] else [])
  else
    match lastBlock (bc (node c)) with
    | None => None
    | Some block => Some (validators block)
    end.

(** The block whose hash seeds the election. *)
Definition seedBlockOf (c : Consensus) : option Block :=
  if state_number (state c) <=? MAX_CONSENSUS_STATE_DB
  then lastBlock (bc (node c))
  else getBlockByNumber (bc (node c))
         (state_number (state c) - MAX_CONSENSUS_STATE_DB).

Definition selectProposer : M Consensus (option string) := fun c =>
  match getValidatorsAtNumber c (state_number (state c)) with
  | None => Returned None c
  | Some validators =>
      if bool_decide (validators = []) then Returned None c
      else
        match seedBlockOf c with
        | None => Thrown c
        | Some seedBlock =>
            Returned
              (selectProposerWith validators (hash seedBlock) (state_round (state c)))
              c
        end
  end.

Definition updateToState : M Consensus unit := fun c =>
  if lastBlockNumber (bc (node c)) + 1 <? state_number (state c) then Returned tt c
  else
    let c := set_state (mkState (lastBlockNumber (bc (node c)) + 1) 0
                                (state_proposer (state c))) c in
    match selectProposer c with
    | Thrown c => Thrown c
    | Returned p c =>
        let c := set_state (mkState (state_number (state c)) (state_round (state c)) p) c in
        Returned tt (snd (setTimeout CallTryPropose TRANSITION_TIMEOUT_MS c))
    end.

Definition getValidConsensusDeposit (c : Consensus) (address : string) : Z :=
  match getDepositAccount (db (node c)) address with
  | Some (value, expire_at) =>
      if (0 <? value) && (clock c + DAY_MS <? expire_at) then value else 0
  | None => 0
  end.

Definition tryRegister (block : Block) : M Consensus unit := fun c =>
  let myAddr := acc_address (account (node c)) in
  let myStake := getValidConsensusDeposit c myAddr in
  if myStake =? 0 then Returned tt c
  else
    let registerTx := registerTransaction (account (node c)) block myStake in
    Returned tt (executeAndBroadcastTransaction registerTx c).

Definition checkProposal (block : Block) (c : Consensus) : bool :=
  if negb (validateProposedBlock block (bc (node c))) then false
  else if negb (bool_decide (Some (proposer block) = state_proposer (state c))) then false
  else true.

Definition commit (block : Block) : M Consensus unit :=
  onNode (Node_addNewBlock (Some block)) ≫= fun added : bool =>
  if added then tryRegister block ;; updateToState
  else mret tt.

Definition handleConsensusMessage (msg : ConsensusMessage) : M Consensus unit := fun c =>
  match status c with
  | RUNNING =>
      match msg_type msg with
      | PROPOSE =>
          match msg_value msg with
          | None => Returned tt c
          | Some value =>
              if negb (number value =? state_number (state c)) then
                if state_number (state c) <? number value then
                  let c := set_node (set_bc (set_syncedAfterStartup false (bc (node c)))
                                            (node c)) c in
                  Returned tt (requestChainSubsection (lastBlock (bc (node c))) c)
                else Returned tt c
              else if checkProposal value c then
                (commit value ;; modify (broadcastConsensusMessage msg)) c
              else Returned tt c
          end
      | OtherMessageType _ => Returned tt c
      end
  | _ => Returned tt c
  end.

(** The order on [(number, round)] keys: strictly smaller, number first. *)
Definition keyLt (t1 t2 : TimeoutInfo) : Prop :=
  ti_number t1 < ti_number t2
  \/ (ti_number t1 = ti_number t2 /\ ti_round t1 < ti_round t2).

(** [newTimeoutInfo] is older than the armed [ti]. *)
Definition olderThan (newTimeoutInfo ti : TimeoutInfo) : bool :=
  (ti_number newTimeoutInfo <? ti_number ti)
  || ((ti_number newTimeoutInfo =? ti_number ti)
      && (ti_round newTimeoutInfo <? ti_round ti)).

Definition scheduleTimeout (newTimeoutInfo : TimeoutInfo) (durationMs : Z)
  : M Consensus unit := fun c =>
  let install (c : Consensus) : Outcome Consensus unit :=
    let c := set_timeout (timeoutId c) (Some newTimeoutInfo) c in
    let '(id, c) := setTimeout (CallHandleTimeout newTimeoutInfo) durationMs c in
    Returned tt (set_timeout (Some id) (timeoutInfo c) c) in
  match timeoutInfo c with
  | Some ti =>
      if olderThan newTimeoutInfo ti then Returned tt c
      else
        match timeoutId c with
        | Some id => install (clearTimeout id c)
        | None => install c
        end
  | None => install c
  end.

(** A run of [scheduleTimeout] calls, one after the other. *)
Definition scheduleAll (requests : list (TimeoutInfo * Z)) (c : Consensus) : Consensus :=
  foldl (fun c request => stateOf (scheduleTimeout (fst request) (snd request) c))
        c requests.

(** [stop] hands [this.timeoutInfo], which is no timer, to [clearTimeout]:
    the runtime ignores it and the pending timers stay as they are. *)
Definition stop (c : Consensus) : Consensus :=
  let c := setStatus STOPPED "stop" c in
  match timeoutInfo c with
  | Some _ => set_timeout (timeoutId c) None c
  | None => c
  end.

Definition start : M Consensus unit := fun c =>
  updateToState (setStatus RUNNING "start" c).

End Engine.

(** ** The rest of the block store, the node and the engine *)

(** The glob of [BlockFilePatterns.getBlockFilenameByHash]. *)
Class HashGlobApi `{FsApi} : Type := {
  globBlockFilesByHash : Disk -> string -> string -> list string
}.

Section BlockStoreQueries.
Context `{BlockApi, DbApi, FsApi, !HashGlobApi}.

(** [hash] is [None] for [null] and [undefined]; the empty string is falsy
    too. *)
Definition getBlockByHash (bc : Blockchain) (hash : option string) : option Block :=
  match hash with
  | None => None
  | Some h =>
      if String.eqb h "" then None
      else
        match last (globBlockFilesByHash (disk bc) (_blockchainDir bc) h) with
        | None => None
        | Some blockFileName => Some (loadBlock (disk bc) blockFileName)
        end
  end.

(** [from] and [to] are [None] when [Number.isInteger] rejects them. *)
Definition getChainSection (bc : Blockchain) (from to : option Z) : list Block :=
  let from :=
    match from with
    | Some f => if f <? 0 then 0 else f
    | None => 0
    end in
  let to :=
    match to with
    | Some t => if t <? 0 then lastBlockNumber bc + 1 else t
    | None => lastBlockNumber bc + 1
    end in
  map (loadBlock (disk bc)) (getBlockFiles bc from to).

End BlockStoreQueries.

(** The write operations the engine builds, and the values it writes. *)
Inductive OpValue : Type :=
| VNull
| VAmount (amount : Z)
| VProposal (number : Z) (validators : list (string * Z)) (total_at_stake : Z)
            (proposer : string).

#[warnings="-register-all"]
Inductive Operation : Type :=
| SET_VALUE (ref : string) (value : OpValue)
| SET (op_list : list Operation).

(** An object handed to [createTransaction]. [td_nonce] is [None] for
    [undefined], [Some None] for [null]; [td_tx_list] is [None] when the
    object has no [tx_list], and else the references to its entries. *)
Record TxData : Type := mkTxData {
  td_operation : option Operation;
  td_address : option string;
  td_nonce : option (option Z);
  td_skip_verif : bool;
  td_tx_list : option (list nat)
}.

(** The objects that [createTransaction] can reach, by reference.
    [createSingleTransaction] writes to the object it is given, and a
    caller or a [tx_list] that holds the same reference twice sees the
    write. *)
Abbreviation Objects := (gmap nat TxData).

(** What [createTransaction] returns: a transaction, or [{ tx_list }]. *)
Inductive CreatedTransaction : Type :=
| CreatedSingle (tx : Transaction)
| CreatedBatch (tx_list : list Transaction).

(** [Transaction.isBatchTransaction] and [Transaction.newTransaction]. *)
Class TransactionApi : Type := {
  isBatchTransaction : TxData -> bool;
  newTransaction : string -> TxData -> Transaction
}.

Section NodeTransactions.
Context `{BlockApi, DbApi, FsApi, TxPoolApi, AddressApi, TransactionApi}.

Definition set_td_nonce (z : option (option Z)) (d : TxData) : TxData :=
  mkTxData (td_operation d) (td_address d) z (td_skip_verif d) (td_tx_list d).

Definition set_td_skip_verif (b : bool) (d : TxData) : TxData :=
  mkTxData (td_operation d) (td_address d) (td_nonce d) b (td_tx_list d).

(** [this.nonce++]: [null] counts as 0. *)
Definition incrementNonce (n : Node) : Node :=
  set_nonce (Some (default 0 (nonce n) + 1)) n.

(** [if (txData.address !== undefined) txData.skip_verif = true] *)
Definition markCustomAddress (txData : TxData) : TxData :=
  match td_address txData with
  | Some _ => set_td_skip_verif true txData
  | None => txData
  end.

(** The two assignments of [createSingleTransaction] on [txData], and the
    counter after them. *)
Definition fillTxData (txData : TxData) (isNoncedTransaction : bool) (n : Node)
  : TxData * Node :=
  let txData := markCustomAddress txData in
  match td_nonce txData with
  | None =>
      if isNoncedTransaction
      then (set_td_nonce (Some (nonce n)) txData, incrementNonce n)
      else (set_td_nonce (Some (Some (-1))) txData, n)
  | Some _ => (txData, n)
  end.

(** [txData] is the object at [ref]; a reference to no object ([undefined]
    in a [tx_list]) makes the first property read throw. *)
Definition createSingleTransaction (ref : nat) (isNoncedTransaction : bool)
  : M (Objects * Node) Transaction := fun '(objects, n) =>
  match objects !! ref with
  | None => Thrown (objects, n)
  | Some txData =>
      let '(txData, n) := fillTxData txData isNoncedTransaction n in
      Returned (newTransaction (private_key (account n)) txData)
               (<[ ref := txData ]> objects, n)
  end.

(** The [forEach] of [createTransaction] over [tx_list]. *)
Fixpoint createEach (tx_list : list nat) (isNoncedTransaction : bool)
  : M (Objects * Node) (list Transaction) :=
  match tx_list with
  | [] => mret []
  | subData :: rest =>
      createSingleTransaction subData isNoncedTransaction ≫= fun tx : Transaction =>
      createEach rest isNoncedTransaction ≫= fun txList : list Transaction =>
      mret (tx :: txList)
  end.

Definition createTransaction (ref : nat) (isNoncedTransaction : bool)
  : M (Objects * Node) CreatedTransaction := fun s =>
  match fst s !! ref with
  | None => Thrown s
  | Some txData =>
      if isBatchTransaction txData then
        match td_tx_list txData with
        | None => Thrown s
        | Some tx_list =>
            (createEach tx_list isNoncedTransaction ≫= fun txList : list Transaction =>
             mret (CreatedBatch txList)) s
        end
      else
        (createSingleTransaction ref isNoncedTransaction ≫= fun tx : Transaction =>
         mret (CreatedSingle tx)) s
  end.

(** [createTransaction] on an object literal: a fresh object that nothing
    else refers to. *)
Definition createTransactionOf (txData : TxData) (isNoncedTransaction : bool)
  : M Node CreatedTransaction := fun n =>
  match createTransaction 0%nat isNoncedTransaction ({[ 0%nat := txData ]}, n) with
  | Returned created (_, n) => Returned created n
  | Thrown (_, n) => Thrown n
  end.

(** What a call may change: in the node the counter, which does not go
    down; in the objects the nonce and [skip_verif]. *)
Definition onlyNonces (s s' : Objects * Node) : Prop :=
  bc (snd s') = bc (snd s) /\ tp (snd s') = tp (snd s) /\ db (snd s') = db (snd s)
  /\ initialized (snd s') = initialized (snd s) /\ account (snd s') = account (snd s)
  /\ default 0 (nonce (snd s)) <= default 0 (nonce (snd s'))
  /\ forall r : nat,
       td_operation <$> fst s' !! r = td_operation <$> fst s !! r
       /\ td_address <$> fst s' !! r = td_address <$> fst s !! r
       /\ td_tx_list <$> fst s' !! r = td_tx_list <$> fst s !! r.

(** [setAccountForTesting], for the account at [accountIndex]. *)
Definition setAccountForTesting (a : Account) (n : Node) : Node :=
  mkNode _ _ _ (bc n) (tp n) (db n) (nonce n) (initialized n) a.

End NodeTransactions.

(** What the proposal path reads from outside: [Block.createBlock], the
    registrations of a height as [getValue] gives them (the entries
    [address -> (block_hash, stake)] in the order of enumeration),
    [ChainUtil.formatPath] on labels and
    numbers, the path labels of [constants.js], [PushId.generate] at a clock
    reading, and [areSameAddresses] when the elected proposer is [null]
    ([None]: the comparison throws). *)
Class ProposalApi `{DbApi, FsApi, TxPoolApi} : Type := {
  createBlock : string -> list Transaction -> list Transaction -> Z -> string
                -> list (string * Z) -> Block;
  getRegistration : DB -> string -> option (list (string * (string * Z)));
  formatPath : list (string + Z) -> string;
  CONSENSUS : string;
  NUMBER : string;
  PROPOSE_PATH : string;
  REGISTER : string;
  DEPOSIT_CONSENSUS : string;
  DEPOSIT_VALUE : string;
  generatePushId : Z -> string;
  nullIsSameAddress : string -> option bool
}.

Section EngineRounds.
Context `{BlockApi, DbApi, FsApi, TxPoolApi, AddressApi, Config, Prng, DoubleArith,
          !ServerApi, TransactionApi, !ProposalApi}.

(** [this.server.executeTransaction(tx, MessageTypes.TRANSACTION)] *)
Definition executeTransaction (tx : Transaction) (c : Consensus) : Consensus :=
  set_node (serverExecute tx (node c)) (callServer (ExecuteTransaction tx) c).

(** [None]: the call throws. *)
Definition getStakeAtNumber (c : Consensus) (n : Z) (address : string) : option Z :=
  if n <=? 1 then Some 0
  else
    match getBlockByNumber (bc (node c)) (n - 1) with
    | None => None
    | Some block => Some (stakeOf (validators block) address)
    end.

(** [None]: the call throws 'No validators registered'. *)
Definition getValidatorsVotedFor (c : Consensus) (n : Z) (hash : string)
  : option (list (string * Z)) :=
  if n =? 0 then
    let myAddr := acc_address (account (node c)) in
    Some (if 0 <? STAKE then [(myAddr, getValidConsensusDeposit c myAddr)] else [])
  else
    let registerRef := formatPath [inl CONSENSUS; inl NUMBER; inr n; inl REGISTER] in
    match getRegistration (db (node c)) registerRef with
    | None => None
    | Some registration =>
        Some ((fun entry => (fst entry, snd (snd entry)))
                <$> filter (fun entry => fst (snd entry) = hash) registration)
    end.

(** [{ operation }], the object literal the engine hands to
    [createTransaction]. It has no [tx_list], so [createTransaction]
    answers one transaction for it or throws; the [CreatedBatch] branches
    below are never taken. *)
Definition operationData (op : Operation) : TxData :=
  mkTxData (Some op) None None false None.

Definition stake (amount : Z) : M Consensus unit := fun c =>
  if amount <=? 0 then Returned tt c
  else
    let ref := formatPath [inl DEPOSIT_CONSENSUS;
                           inl (acc_address (account (node c)));
                           inl (generatePushId (clock c));
                           inl DEPOSIT_VALUE] in
    match onNode (createTransactionOf (operationData (SET_VALUE ref (VAmount amount)))
                                      false) c with
    | Thrown c => Thrown c
    | Returned (CreatedSingle depositTx) c =>
        Returned tt (executeAndBroadcastTransaction depositTx c)
    | Returned (CreatedBatch _) c => Thrown c
    end.

Definition createBlockProposal : M Consensus Block := fun c =>
  match lastBlock (bc (node c)) with
  | None => Thrown c
  | Some lb =>
      let blockNumber := state_number (state c) in
      let transactions := getValidTransactions (tp (node c)) in
      let proposer := acc_address (account (node c)) in
      match getValidatorsVotedFor c (number lb) (hash lb) with
      | None => Thrown c
      | Some validators =>
          let totalAtStake := totalAtStake validators in
          let proposeTx :=
            SET_VALUE
              (formatPath [inl CONSENSUS; inl NUMBER; inr blockNumber; inl PROPOSE_PATH])
              (VProposal blockNumber validators totalAtStake proposer) in
          let operation :=
            if blockNumber <=? MAX_CONSENSUS_STATE_DB then proposeTx
            else SET [proposeTx;
                      SET_VALUE
                        (formatPath [inl CONSENSUS; inl NUMBER;
                                     inr (blockNumber - MAX_CONSENSUS_STATE_DB)])
                        VNull] in
          match onNode (createTransactionOf (operationData operation) false) c with
          | Thrown c => Thrown c
          | Returned (CreatedBatch _) c => Thrown c
          | Returned (CreatedSingle consensusUpdateTx) c =>
              let transactions := transactions ++ [consensusUpdateTx] in
              let c := executeTransaction consensusUpdateTx c in
              match lastBlock (bc (node c)) with
              | None => Thrown c
              | Some lb' =>
                  Returned
                    (createBlock (hash lb') [] transactions blockNumber
                                 proposer validators)
                    c
              end
          end
      end
  end.

(** [ainUtil.areSameAddresses(this.state.proposer, this.node.account.address)];
    [None]: the comparison throws. *)
Definition isLocalProposer (c : Consensus) : option bool :=
  match state_proposer (state c) with
  | Some p => Some (areSameAddresses p (acc_address (account (node c))))
  | None => nullIsSameAddress (acc_address (account (node c)))
  end.

Definition tryPropose : M Consensus unit := fun c =>
  match isLocalProposer c with
  | None => Thrown c
  | Some true =>
      (scheduleTimeout (mkTimeoutInfo (state_number (state c)) (state_round (state c)))
                       PROPOSAL_TIMEOUT_MS ;;
       createBlockProposal ≫= fun proposal : Block =>
       handleConsensusMessage (mkMessage (Some proposal) PROPOSE)) c
  | Some false =>
      scheduleTimeout (mkTimeoutInfo (state_number (state c)) (state_round (state c)))
                      PROPOSAL_TIMEOUT_MS c
  end.

Definition handleTimeout (timeoutInfo : TimeoutInfo) : M Consensus unit := fun c =>
  if negb (ti_number timeoutInfo =? state_number (state c))
     || (ti_round timeoutInfo <? state_round (state c))
  then Returned tt c
  else
    let c := set_state (mkState (state_number (state c)) (ti_round timeoutInfo + 1)
                                (state_proposer (state c))) c in
    match selectProposer c with
    | Thrown c => Thrown c
    | Returned p c =>
        tryPropose
          (set_state (mkState (state_number (state c)) (state_round (state c)) p) c)
    end.

(** The body of the [try] block of [init]. *)
Definition initBody : M Consensus unit := fun c =>
  let currentStake :=
    if state_number (state c) =? 1
    then Some (getValidConsensusDeposit c (acc_address (account (node c))))
    else getStakeAtNumber c (state_number (state c)) (acc_address (account (node c))) in
  match currentStake with
  | None => Thrown c
  | Some currentStake =>
      ((if (currentStake =? 0) && (0 <? STAKE) then stake STAKE else mret tt) ;;
       start) c
  end.

Definition Consensus_init (c : Consensus) : Consensus :=
  let c := set_state (mkState (lastBlockNumber (bc (node c)) + 1)
                              (state_round (state c)) (state_proposer (state c))) c in
  let c := setStatus INITIALIZED "init" c in
  match initBody c with
  | Returned _ c => c
  | Thrown c => setStatus STARTING "init" c
  end.


(** A timer of the runtime fires: it leaves the pending timers and its
    callback runs. *)
Definition fire (t : Timer) : M Consensus unit := fun c =>
  let c := set_timers (filter (fun t' => timer_id t' ≠ timer_id t) (timers c))
                      (nextTimerId c) c in
  match timer_callback t with
  | CallTryPropose => tryPropose c
  | CallHandleTimeout timeoutInfo => handleTimeout timeoutInfo c
  end.

End EngineRounds.

(** The timers of the runtime that the engine keeps track of. *)
Section TimerInvariant.
Context `{DbApi, FsApi, TxPoolApi}.

(** A pending timer whose callback is [handleTimeout]. *)
Definition isTimeoutTimer (t : Timer) : bool :=
  match timer_callback t with
  | CallHandleTimeout _ => true
  | CallTryPropose => false
  end.

(** The pending timers have distinct handles, all handed out before
    [nextTimerId], and every pending [handleTimeout] timer is the one
    recorded in [timeoutId], with [timeoutInfo] set. *)
Definition timersTracked (c : Consensus) : Prop :=
  NoDup (timer_id <$> timers c)
  /\ (forall t : Timer, t ∈ timers c -> (timer_id t < nextTimerId c)%nat)
  /\ (forall t : Timer, t ∈ timers c -> isTimeoutTimer t = true ->
        timeoutInfo c <> None /\ timeoutId c = Some (timer_id t)).

(** An operation keeps the timers tracked, whether it returns or throws. *)
Definition keeps {A} (m : M Consensus A) : Prop :=
  forall c : Consensus, timersTracked c -> timersTracked (stateOf (m c)).

End TimerInvariant.

(** ** Concrete collaborators for examples

    A database that records the transaction lists it was asked to execute, a
    pool that is a list of pending transactions, a directory that is a list
    of named entries. *)

Module Sample.

Definition asInstance (b : Block) : Block :=
  mkBlock (number b) (hash b) (last_hash b) (timestamp b) (transactions b)
          (proposer b) (validators b) true.

Definition genesisBlock : Block := mkBlock 0 "g0" "" 0 [] "" [] true.

Definition blockApi : BlockApi := {|
  parse := asInstance;
  genesis := genesisBlock;
  validateHashes := fun _ => true;
  getFileName := fun b => (pretty (number b) ++ "-" ++ hash b)%string
|}.

Definition dbApi : DbApi := {|
  DB := list (list Transaction);
  newDB := [];
  executeTransactionList := fun txs d => d ++ [txs];
  setDbToSnapshot := fun snapshot _ => default [] snapshot;
  getDepositAccount := fun _ _ => None
|}.

(** The pool: the pending transactions and, per address, the greatest
    nonce seen in a block. A pending transaction is valid when it carries no
    nonce or a nonce above the one tracked for its address. *)
Definition trackedNonce (committed : gmap string Z) (addr : string) : Z :=
  default (-1) (committed !! addr).

Definition sameTransaction (t1 t2 : Transaction) : bool :=
  String.eqb (tx_address t1) (tx_address t2)
  && (tx_nonce t1 =? tx_nonce t2)
  && String.eqb (tx_operation t1) (tx_operation t2).

Definition txPoolApi : TxPoolApi := {|
  TP := list Transaction * gmap string Z;
  newTP := ([], ∅);
  getValidTransactions := fun pool =>
    List.filter (fun t => (tx_nonce t <? 0)
                          || (trackedNonce (snd pool) (tx_address t) <? tx_nonce t))
                (fst pool);
  cleanUpForNewBlock := fun b pool =>
    (List.filter (fun t => negb (existsb (sameTransaction t) (transactions b)))
                 (fst pool),
     snd pool);
  updateNonceTrackers := fun txs pool =>
    (fst pool,
     foldl (fun committed t =>
              if tx_nonce t <? 0 then committed
              else <[ tx_address t :=
                        Z.max (tx_nonce t) (trackedNonce committed (tx_address t)) ]>
                     committed)
           (snd pool) txs)
|}.

Definition fileBlocks (d : list (string * option Block)) : list (string * Block) :=
  omap (fun e => match snd e with Some b => Some (fst e, b) | None => None end) d.

Definition fsApi : FsApi := {|
  Disk := list (string * option Block);
  BLOCKCHAINS_DIR := "blockchains";
  pathResolve := fun a b => (a ++ "/" ++ b)%string;
  existsSync := fun d p => bool_decide (p ∈ map fst d);
  mkdirSync := fun p d => d ++ [(p, None)];
  rimraf := fun _ d => filter (fun e => snd e = None) d;
  saveBlock := fun p b d => d ++ [(p, Some b)];
  loadBlock := fun d p =>
    match filter (fun e => fst e = p) (fileBlocks d) with
    | (_, b) :: _ => b
    | [] => genesisBlock
    end;
  globAllBlockFiles := fun d _ => map fst (fileBlocks d);
  globBlockFilesInRange := fun d _ from to =>
    map fst (filter (fun e => from <= number (snd e) < to) (fileBlocks d));
  naturalSort := fun l => l
|}.

Definition addressApi : AddressApi := {| areSameAddresses := String.eqb |}.

Definition config : Config := {|
  STAKE := 100;
  MAX_CONSENSUS_STATE_DB := 1000;
  TRANSITION_TIMEOUT_MS := 100;
  PROPOSAL_TIMEOUT_MS := 10000;
  DAY_MS := 86400000
|}.

Definition prng : Prng := {| seedrandom := fun _ => (1 # 2)%Q |}.

(** The product of two doubles: the exact product, rounded. *)
Definition doubleArith : DoubleArith :=
  {| mulDouble := fun x y => roundDouble (x * y)%Q |}.

Definition serverApi : @ServerApi dbApi fsApi txPoolApi := {|
  validateProposedBlock := fun b store =>
    number b =? @lastBlockNumber dbApi fsApi store + 1;
  registerTransaction := fun a _ _ => mkTransaction (acc_address a) (-1) "register";
  serverExecute := fun _ n => n
|}.

Definition tx (addr : string) (n : Z) : Transaction := mkTransaction addr n "set".

Definition block (n : Z) (h prev : string) (txs : list Transaction) : Block :=
  mkBlock n h prev 0 txs "" [] true.

Definition store (c : list Block) (snapshot : option (list (list Transaction)))
    (synced : bool) : @Blockchain dbApi fsApi :=
  @mkBlockchain dbApi fsApi c "8080" snapshot synced [].

Definition nodeOf (bc : @Blockchain dbApi fsApi) (pending : list Transaction)
    (addr : string) : @Node dbApi fsApi txPoolApi :=
  @mkNode dbApi fsApi txPoolApi bc (pending, ∅) [] None false (mkAccount addr "key").

Definition engineOf (n : @Node dbApi fsApi txPoolApi) (st : ConsensusStatus)
    (height round : Z) (p : option string)
    (id : option nat) (info : option TimeoutInfo) (pending : list Timer)
  : @Consensus dbApi fsApi txPoolApi :=
  @mkConsensus dbApi fsApi txPoolApi n st 0 "" id info (mkState height round p)
    pending (length pending) [] 0.

(** The validator set of scenario S2. *)
Definition validatorsABC : list (string * Z) :=
  [("A"%string, 100); ("B"%string, 100); ("C"%string, 100)].

Definition electedBlock (n : Z) (h prev : string) : Block :=
  mkBlock n h prev 0 [] "A" validatorsABC true.

(** A store of two blocks, and a block numbered 2 that names a previous
    hash the store does not have. *)
Definition b0 : Block := block 0 "g0" "" [].
Definition b1 : Block := block 1 "h1" "g0" [tx "A" 0].
Definition twoBlocks : @Blockchain dbApi fsApi := store [b0; b1] (Some []) false.

(** Ten blocks in memory, numbered 0 to 9, and the next one. *)
Definition numbered (n : Z) : Block :=
  block n ("h" ++ pretty n) ("h" ++ pretty (n - 1)) [tx "A" n].
Definition tenBlocks : @Blockchain dbApi fsApi :=
  store (numbered <$> seqZ 0 10) (Some []) true.

(** A directory that holds the genesis block and a block whose two
    transactions of account [A] carry the nonces 5 and 2, in that order. *)
Definition savedDisk : list (string * option Block) :=
  [("blockchains"%string, None);
   ("blockchains/8080"%string, None);
   ("blockchains/8080/0-g0"%string, Some genesisBlock);
   ("blockchains/8080/1-h1"%string, Some (block 1 "h1" "g0" [tx "A" 5; tx "A" 2]))].
Definition restarted : @Node dbApi fsApi txPoolApi :=
  @newNode dbApi fsApi txPoolApi "8080" savedDisk (mkAccount "A" "key").

(** Two engines at height 2, round 0, on different nodes whose last block is
    the same. *)
Definition electionStore : @Blockchain dbApi fsApi :=
  store [electedBlock 1 "deadbeef" "g0"] (Some []) true.
Definition engineA : @Consensus dbApi fsApi txPoolApi :=
  engineOf (nodeOf electionStore [] "A") RUNNING 2 0 (Some "B"%string) None None [].
Definition engineB : @Consensus dbApi fsApi txPoolApi :=
  engineOf (nodeOf electionStore [tx "B" 0] "B") RUNNING 2 0 None
           (Some 0%nat) (Some (mkTimeoutInfo 2 0))
           [mkTimer 0 (CallHandleTimeout (mkTimeoutInfo 2 0)) 10000].

Definition proposal (n : Z) : ConsensusMessage :=
  mkMessage (Some (electedBlock n "h9" "h8")) PROPOSE.

Definition hashGlobApi : @HashGlobApi fsApi :=
  @Build_HashGlobApi fsApi
    (fun d _ h =>
       map fst (filter (fun e => isSubstring h (hash (snd e)) = true) (fileBlocks d))).

(** A transaction layer that signs nothing: the address is the one in the
    data or else the key, the nonce the one in the data, the operation the
    path it writes. *)
Definition transactionApi : TransactionApi := {|
  isBatchTransaction := fun d =>
    match td_tx_list d with Some _ => true | None => false end;
  newTransaction := fun key d =>
    mkTransaction (default key (td_address d))
                  (default (-1) (default None (td_nonce d)))
                  match td_operation d with
                  | Some (SET_VALUE ref _) => ref
                  | Some (SET _) => "set"
                  | None => "none"
                  end
|}.

(** Paths are joined with slashes; the db holds one registration, for
    height 1, in which [A] and [B] voted for the block [deadbeef]. *)
Definition proposalApi : @ProposalApi dbApi fsApi txPoolApi := {|
  createBlock := fun last_hash _ txs n p vals =>
    mkBlock n ("h" ++ pretty n) last_hash 0 txs p vals true;
  getRegistration := fun _ ref =>
    if String.eqb ref "/consensus/number/1/register"
    then Some [("A"%string, ("deadbeef"%string, 100));
               ("B"%string, ("deadbeef"%string, 100));
               ("C"%string, ("other"%string, 100))]
    else None;
  formatPath := fun labels =>
    foldr (fun label path =>
             ("/" ++ match label with inl s => s | inr z => pretty z end ++ path)%string)
          ""%string labels;
  CONSENSUS := "consensus";
  NUMBER := "number";
  PROPOSE_PATH := "propose";
  REGISTER := "register";
  DEPOSIT_CONSENSUS := "deposit/consensus";
  DEPOSIT_VALUE := "value";
  generatePushId := fun now => pretty now;
  nullIsSameAddress := fun _ => Some false
|}.

(** A section that follows the store [twoBlocks] and then skips a number. *)
Definition b2 : Block := block 2 "h2" "h1" [].
Definition b4 : Block := block 4 "h4" "h2" [].
Definition gapSection : list Block := [b1; b2; b4].

(** A batch object at reference 0 whose two entries, at the references 1
    and 2, carry no nonce, the second for another address; and a node whose
    counter is 7. *)
Definition batchEntry (address : option string) : TxData :=
  mkTxData (Some (SET_VALUE "/x" (VAmount 1))) address None false None.
Definition batchObjects : gmap nat TxData :=
  {[ 0%nat := mkTxData None None None false (Some [1%nat; 2%nat]);
     1%nat := batchEntry None;
     2%nat := batchEntry (Some "X"%string) ]}.
Definition counting : @Node dbApi fsApi txPoolApi :=
  @set_nonce dbApi fsApi txPoolApi (Some 7) (nodeOf twoBlocks [] "A").

(** An engine at height 1 on the genesis block, and the elected proposer
    of [engineA] at work. *)
Definition genesisEngine : @Consensus dbApi fsApi txPoolApi :=
  engineOf (nodeOf (store [b0] (Some []) false) [] "A") RUNNING 1 0 None None None [].
Definition proposerA : @Consensus dbApi fsApi txPoolApi :=
  engineOf (nodeOf electionStore [] "A") RUNNING 2 0 (Some "A"%string) None None [].

(** A generator whose sample is the largest double below 1. *)
Definition nearOne : Prng :=
  {| seedrandom := fun _ => (9007199254740991 # 9007199254740992)%Q |}.

(** A generator whose sample is the largest double below one third,
    [0.3333333333333333]. *)
Definition belowThird : Prng :=
  {| seedrandom := fun _ => (6004799503160661 # 18014398509481984)%Q |}.

(** Three validators whose stakes add up to [2 ^ 53 + 2], as two objects
    with the same entries and different orders of insertion; the validators
    of scenario S2 in another order of insertion; and an engine at height 2,
    round 0, whose last block carries the validators it is given. *)
Definition heavyBCA : list (string * Z) :=
  [("B"%string, 1); ("C"%string, 1); ("A"%string, 9007199254740992)].
Definition heavyABC : list (string * Z) :=
  [("A"%string, 9007199254740992); ("B"%string, 1); ("C"%string, 1)].
Definition validatorsCBA : list (string * Z) :=
  [("C"%string, 100); ("B"%string, 100); ("A"%string, 100)].
Definition engineWith (validators : list (string * Z))
  : @Consensus dbApi fsApi txPoolApi :=
  engineOf
    (nodeOf (store [mkBlock 1 "deadbeef" "g0" 0 [] "A" validators true] (Some []) true)
            [] "A")
    RUNNING 2 0 None None None [].

(** A chain whose newest transaction of account [A] carries the nonce
    [2 ^ 53]. *)
Definition largeNonce : @Node dbApi fsApi txPoolApi :=
  nodeOf (store [block 0 "g0" "" [tx "A" 9007199254740992]] (Some []) true) [] "A".

(** An engine at height 2 in round 1 on the node of [C], which is not the
    proposer, with the timeout of that round armed. *)
Definition armedRound1 : @Consensus dbApi fsApi txPoolApi :=
  engineOf (nodeOf electionStore [] "C") RUNNING 2 1 (Some "B"%string)
           (Some 0%nat) (Some (mkTimeoutInfo 2 1))
           [mkTimer 0 (CallHandleTimeout (mkTimeoutInfo 2 1)) 10000].

(** The proposal that [proposerA] builds once its timeout is scheduled,
    and [armedRound1] after [stop], [start] and the firing of the
    [tryPropose] timer that [start] arms. *)
Section Proposing.
Local Existing Instances blockApi dbApi fsApi txPoolApi addressApi config prng
  doubleArith serverApi transactionApi proposalApi.

Definition builtA : Outcome Consensus Block :=
  createBlockProposal
    (stateOf (scheduleTimeout (mkTimeoutInfo 2 0) PROPOSAL_TIMEOUT_MS proposerA)).

Definition proposalA : Block := default genesisBlock (valueOf builtA).

Definition stoppedAndStarted : Consensus :=
  stateOf (fire (mkTimer 1 CallTryPropose TRANSITION_TIMEOUT_MS)
                (stateOf (start (stop armedRound1)))).

End Proposing.

End Sample.

(** * Sequencing of calls *)

Lemma bind_returned {S A B} (m : M S A) (k : A -> M S B) (s s' : S) (b : B) :
  (m ≫= k) s = Returned b s' ->
  exists (a : A) (s1 : S), m s = Returned a s1 /\ k a s1 = Returned b s'.
Proof.
  unfold mbind, M_bind. destruct (m s) as [a s1|s1]; [|discriminate].
  intros Hk. by exists a, s1.
Qed.

(** * Properties of the block store *)

Section BlockStoreFacts.
Context `{BlockApi, DbApi, FsApi}.

Lemma shiftOldBlocks_returned (c : list Block) :
  forall (snap : option DB) (c' : list Block) (snap' : option DB) (u : unit),
    shiftOldBlocks c snap = Returned u (c', snap') ->
    exists shifted : list Block,
      c = shifted ++ c'
      /\ length c' = Nat.min (length c) 10
      /\ snap' = applyShifted shifted <$> snap
      /\ (shifted = [] \/ is_Some snap).
Proof.
  induction c as [|block rest IH]; intros snap c' snap' u Hrun.
  - simpl in Hrun. injection Hrun as Hc Hs. subst c' snap'.
    exists []. destruct snap; simpl; auto.
  - cbn [shiftOldBlocks] in Hrun.
    destruct (10 <? Z.of_nat (length (block :: rest))) eqn:Hlen.
    + apply Z.ltb_lt in Hlen.
      destruct snap as [d|]; [|discriminate].
      apply IH in Hrun as (shifted & -> & Hl & -> & _).
      exists (block :: shifted). repeat split; eauto.
      rewrite Hl. cbn [length] in *. rewrite length_app in *. lia.
    + apply Z.ltb_ge in Hlen. injection Hrun as Hc Hs. subst c' snap'.
      exists []. split_and!; auto.
      * cbn [length] in *. lia.
      * destruct snap; reflexivity.
Qed.

Lemma shiftOldBlocks_thrown (c : list Block) :
  forall (snap : option DB) (st : list Block * option DB),
    shiftOldBlocks c snap = Thrown st ->
    snap = None /\ (10 < length c)%nat.
Proof.
  induction c as [|block rest IH]; intros snap st Hrun; [discriminate|].
  cbn [shiftOldBlocks] in Hrun.
  destruct (10 <? Z.of_nat (length (block :: rest))) eqn:Hlen; [|discriminate].
  apply Z.ltb_lt in Hlen.
  destruct snap as [d|].
  - apply IH in Hrun as [? _]. discriminate.
  - split; [reflexivity|]. lia.
Qed.

Lemma last_suffix_window (shifted c' : list Block) (b : Block) (c : list Block) :
  c ++ [b] = shifted ++ c' ->
  length c' = Nat.min (length (c ++ [b])) 10 ->
  last c' = Some b.
Proof.
  intros Heq Hlen.
  destruct c' as [|x c'] using rev_ind.
  - rewrite length_app in Hlen. simpl in Hlen. lia.
  - rewrite app_assoc in Heq. apply app_inj_tail in Heq as [_ ->].
    apply last_snoc.
Qed.

(** What a successful [addNewBlock] did, in one statement. *)
Lemma addNewBlock_true (bc bc' : Blockchain) (block : option Block) :
  addNewBlock block bc = Returned true bc' ->
  exists (b : Block) (shifted : list Block),
    block = Some b
    /\ number b = lastBlockNumber bc + 1
    /\ chain bc ++ [asBlock b] = shifted ++ chain bc'
    /\ length (chain bc') = Nat.min (length (chain bc) + 1) 10
    /\ backupDb bc' = applyShifted shifted <$> backupDb bc
    /\ (shifted = [] \/ is_Some (backupDb bc))
    /\ syncedAfterStartup bc' = syncedAfterStartup bc.
Proof.
  unfold addNewBlock. destruct block as [b|]; [|discriminate].
  destruct (number b =? lastBlockNumber bc + 1) eqn:Hnum; cbn [negb]; [|discriminate].
  apply Z.eqb_eq in Hnum.
  destruct (shiftOldBlocks (chain bc ++ [asBlock b]) (backupDb bc))
    as [u [c d]|[c d]] eqn:Hshift; [|discriminate].
  intros Hret. inversion Hret; subst bc'. clear Hret.
  apply shiftOldBlocks_returned in Hshift as (shifted & Heq & Hlen & Hdb & Hsome).
  exists b, shifted. cbn. repeat split; auto.
  rewrite Hlen, length_app. simpl. reflexivity.
Qed.

(** [addNewBlock] throws only when a block has to leave the window and no
    snapshot db is bound. *)
Lemma addNewBlock_thrown (bc bc' : Blockchain) (block : option Block) :
  addNewBlock block bc = Thrown bc' ->
  backupDb bc = None /\ (10 <= length (chain bc))%nat.
Proof.
  unfold addNewBlock. destruct block as [b|]; [|discriminate].
  destruct (negb (number b =? lastBlockNumber bc + 1)); [discriminate|].
  destruct (shiftOldBlocks (chain bc ++ [asBlock b]) (backupDb bc))
    as [u [c d]|[c d]] eqn:Hshift; [discriminate|].
  intros _. apply shiftOldBlocks_thrown in Hshift as [Hdb Hlen].
  split; [exact Hdb|]. rewrite length_app in Hlen. simpl in Hlen. lia.
Qed.

End BlockStoreFacts.

Section BlockStoreClaims.
Context `{BlockApi, DbApi, FsApi}.

Lemma lastBlockNumber_prev (bc : Blockchain) (prev : Block) :
  lastBlock bc = Some prev -> lastBlockNumber bc = number prev.
Proof. unfold lastBlockNumber. intros ->. reflexivity. Qed.

(** The block a successful [addNewBlock] took: its number continues the
    chain, and it is the new last block. *)
Lemma addNewBlock_true_last (bc bc' : Blockchain) (block : option Block) :
  addNewBlock block bc = Returned true bc' ->
  exists b : Block,
    block = Some b
    /\ number b = lastBlockNumber bc + 1
    /\ (forall prev : Block, lastBlock bc = Some prev -> number b = number prev + 1)
    /\ lastBlock bc' = Some (asBlock b).
Proof.
  intros Hadd.
  apply addNewBlock_true in Hadd
    as (b & shifted & -> & Hnum & Hchain & Hlen & _).
  exists b. split_and!; auto.
  - intros prev Hprev. rewrite Hnum. f_equal. by apply lastBlockNumber_prev.
  - unfold lastBlock. eapply last_suffix_window; [exact Hchain|].
    rewrite Hlen, length_app. simpl. reflexivity.
Qed.


(** C5. After a successful [addNewBlock] the in-memory chain holds at most
    10 blocks; the blocks that left the window are the oldest ones, and the
    snapshot db is the previous one with the transaction list of each of them
    executed once, oldest first. *)
Theorem addNewBlock_window (bc bc' : Blockchain) (block : option Block)
    (Hadd : addNewBlock block bc = Returned true bc') :
  (length (chain bc') <= 10)%nat
  /\ exists (b : Block) (shifted : list Block),
       block = Some b
       /\ chain bc ++ [asBlock b] = shifted ++ chain bc'
       /\ length shifted = (length (chain bc) + 1 - 10)%nat
       /\ backupDb bc' = applyShifted shifted <$> backupDb bc
       /\ (shifted <> [] -> is_Some (backupDb bc) /\ is_Some (backupDb bc')).
Proof.
  apply addNewBlock_true in Hadd
    as (b & shifted & -> & Hnum & Hchain & Hlen & Hdb & Hsome & _).
  split; [lia|].
  exists b, shifted. split_and!; auto.
  - apply (f_equal length) in Hchain. rewrite !length_app in Hchain.
    simpl in Hchain. lia.
  - intros Hne. destruct Hsome as [->|Hs]; [done|].
    split; [done|]. rewrite Hdb. destruct Hs as [d ->]. by eexists.
Qed.

Lemma markSynced_spec (bc : Blockchain) :
  syncedAfterStartup (markSynced bc) = true
  /\ chain (markSynced bc) = chain bc
  /\ backupDb (markSynced bc) = backupDb bc
  /\ disk (markSynced bc) = disk bc.
Proof.
  unfold markSynced. destruct (syncedAfterStartup bc) eqn:Hs; auto.
Qed.

(** C3 (amended). A section whose last block is not newer than the local
    last block is rejected and the chain is left as it was. When the two
    numbers are equal the store is flagged as synced after startup; when the
    received number is smaller the flag keeps its value. *)
Theorem merge_rejects_not_newer (bc : Blockchain) (chainSubSection : list Block)
    (lastReceived : Block)
    (Hlast : last chainSubSection = Some lastReceived)
    (Hle : number lastReceived <= lastBlockNumber bc) :
  exists bc' : Blockchain,
    merge chainSubSection bc = Returned false bc'
    /\ chain bc' = chain bc
    /\ backupDb bc' = backupDb bc
    /\ disk bc' = disk bc
    /\ syncedAfterStartup bc' =
         if number lastReceived =? lastBlockNumber bc then true
         else syncedAfterStartup bc.
Proof.
  unfold merge. rewrite Hlast.
  destruct chainSubSection as [|first others]; [discriminate|].
  destruct (number lastReceived <? lastBlockNumber bc) eqn:Hlt.
  - apply Z.ltb_lt in Hlt.
    exists bc. split_and!; auto.
    destruct (Z.eqb_spec (number lastReceived) (lastBlockNumber bc)); [lia|done].
  - apply Z.ltb_ge in Hlt.
    assert (number lastReceived = lastBlockNumber bc) as Heq by lia.
    rewrite Heq, Z.eqb_refl.
    exists (markSynced bc).
    destruct (markSynced_spec bc) as (? & ? & ? & ?). auto.
Qed.

Lemma requestBlockchainSection_state (bc : Blockchain) (refBlock : option Block) :
  stateOf (requestBlockchainSection refBlock bc) = bc.
Proof.
  unfold requestBlockchainSection.
  repeat (case_match; simpl; try reflexivity).
Qed.

(** C10. On a store whose in-memory chain is empty, a request for which no
    block file matches throws (it reads [hash] of the missing last block)
    instead of answering [null]; and the operation returns for every
    reference block exactly when the chain is not empty. *)
Theorem requestBlockchainSection_empty_chain (bc : Blockchain) :
  (chain bc = [] ->
   forall refBlock : option Block,
     getBlockFiles bc (refBlockNumberOf refBlock)
                   (refBlockNumberOf refBlock + CHAIN_SUBSECT_LENGTH) = [] ->
     requestBlockchainSection refBlock bc = Thrown bc)
  /\ ((forall refBlock : option Block,
         exists reply, requestBlockchainSection refBlock bc = Returned reply bc)
      <-> chain bc <> []).
Proof.
  split.
  - intros Hempty refBlock Hfiles. unfold requestBlockchainSection.
    rewrite Hfiles. simpl.
    unfold lastBlock. rewrite Hempty. reflexivity.
  - split.
    + intros Htotal Hempty. destruct (Htotal None) as [reply Hreply].
      unfold requestBlockchainSection, lastBlock in Hreply.
      rewrite Hempty in Hreply. simpl in Hreply.
      by repeat case_match.
    + intros Hne refBlock.
      pose proof (requestBlockchainSection_state bc refBlock) as Hst.
      destruct (requestBlockchainSection refBlock bc) as [reply s|s] eqn:Hreq.
      * simpl in Hst. subst s. by exists reply.
      * exfalso. unfold requestBlockchainSection, lastBlock in Hreq.
        destruct (last (chain bc)) as [lb|] eqn:Hl.
        -- by repeat case_match.
        -- apply last_None in Hl. done.
Qed.

Lemma applyShifted_app (s1 s2 : list Block) (d : DB) :
  applyShifted (s1 ++ s2) d = applyShifted s2 (applyShifted s1 d).
Proof. apply foldl_app. Qed.

(** X2. A run of successful [addNewBlock] calls, as [merge] makes it: the blocks
    that were in memory followed by the appended ones are the blocks shifted
    out followed by the blocks now in memory, and the snapshot db has
    executed the transaction list of each shifted block once, oldest
    first. *)
Lemma mergeBlocks_history (blocks : list Block) :
  forall bc bc' : Blockchain,
    mergeBlocks blocks bc = Returned true bc' ->
    exists shifted : list Block,
      chain bc ++ (asBlock <$> blocks) = shifted ++ chain bc'
      /\ backupDb bc' = applyShifted shifted <$> backupDb bc
      /\ (blocks <> [] -> (length (chain bc') <= 10)%nat).
Proof.
  induction blocks as [|b rest IH]; intros bc bc' Hmerge.
  - injection Hmerge as <-. exists []. rewrite app_nil_r.
    split_and!; [done| |done]. by destruct (backupDb bc).
  - cbn [mergeBlocks] in Hmerge.
    apply bind_returned in Hmerge as (added & bc1 & Hadd & Hrest).
    destruct added; [|discriminate].
    apply addNewBlock_true in Hadd
      as (b' & s1 & [= <-] & _ & Hhistory & Hlen & Hdb & _).
    destruct (IH _ _ Hrest) as (s2 & Hhistory2 & Hdb2 & Hlen2).
    exists (s1 ++ s2). split_and!.
    + rewrite fmap_cons, cons_middle, app_assoc, Hhistory, <- !app_assoc.
      by rewrite Hhistory2.
    + rewrite Hdb2, Hdb. destruct (backupDb bc); simpl; [|done].
      by rewrite applyShifted_app.
    + intros _. destruct rest as [|b2 rest'].
      * injection Hrest as <-. lia.
      * by apply Hlen2.
Qed.




Section ParsePreserves.
Hypothesis Hparse : forall b : Block,
  number (parse b) = number b
  /\ hash (parse b) = hash b
  /\ last_hash (parse b) = last_hash b.





End ParsePreserves.

End BlockStoreClaims.

(** * Properties of the rounded sums *)

Lemma roundInteger_exact (v : Z) : Z.abs v <= 2 ^ 53 -> roundInteger v = v.
Proof.
  intros Hv. unfold roundInteger. cbn zeta.
  by destruct (Z.leb_spec (Z.abs v) (2 ^ 53)); [|lia].
Qed.

Lemma addNumber_exact (x y : Z) : Z.abs (x + y) <= 2 ^ 53 -> addNumber x y = x + y.
Proof. apply roundInteger_exact. Qed.

Lemma roundHalfEven_lower (n d : Z) : n / d <= roundHalfEven n d.
Proof.
  unfold roundHalfEven. cbn zeta.
  destruct (_ <? _); [lia|]. destruct (_ <? _); [lia|]. destruct (Z.even _); lia.
Qed.

Lemma roundInteger_positive (v : Z) : 0 < v -> 0 < roundInteger v.
Proof.
  intros Hv. unfold roundInteger. cbn zeta.
  destruct (Z.leb_spec (Z.abs v) (2 ^ 53)) as [|Hbig]; [exact Hv|].
  rewrite Z.abs_eq in * by lia. rewrite Z.sgn_pos by exact Hv.
  pose proof (Z.log2_spec v Hv) as [Hlow _].
  assert (53 <= Z.log2 v) as Hlog.
  { apply Z.log2_le_pow2; lia. }
  set (e := Z.log2 v - 52) in *.
  assert (0 < 2 ^ e) as Hpow by (apply Z.pow_pos_nonneg; lia).
  assert (2 ^ e <= v) as Hle.
  { etransitivity; [|exact Hlow]. apply Z.pow_le_mono_r; lia. }
  pose proof (roundHalfEven_lower v (2 ^ e)) as Hround.
  assert (1 <= v / 2 ^ e) as Hq.
  { apply Z.div_le_lower_bound; lia. }
  nia.
Qed.

Lemma addNumber_positive (x : Z) : 0 <= x -> 0 < addNumber x 1.
Proof. intros Hx. apply roundInteger_positive. lia. Qed.

(** * Properties of the node *)

Section NodeFacts.
Context `{BlockApi, DbApi, FsApi, TxPoolApi, AddressApi}.

Lemma scanTransactions_spec (local : string) (txs : list Transaction) (acc : Z) :
  scanTransactions local txs acc =
  match head (filter (fun tx => isNoncedBy local tx = true) txs) with
  | Some tx => addNumber (tx_nonce tx) 1
  | None => acc
  end.
Proof.
  induction txs as [|tx rest IH]; [reflexivity|].
  cbn [scanTransactions]. rewrite filter_cons.
  destruct (isNoncedBy local tx) eqn:Htx.
  - rewrite decide_True by done. reflexivity.
  - rewrite decide_False by (by intros ?). exact IH.
Qed.

Lemma isNoncedBy_positive (local : string) (tx : Transaction) :
  isNoncedBy local tx = true -> 0 < addNumber (tx_nonce tx) 1.
Proof.
  unfold isNoncedBy. intros [_ Hn%Z.ltb_lt]%andb_prop.
  apply addNumber_positive. lia.
Qed.

Lemma head_filter_app {A} (P : A -> Prop) `{forall x, Decision (P x)} (l1 l2 : list A) :
  head (filter P (l1 ++ l2)) =
  match head (filter P l1) with
  | Some x => Some x
  | None => head (filter P l2)
  end.
Proof.
  rewrite filter_app. destruct (filter P l1); reflexivity.
Qed.

Lemma scanBlocks_spec (local : string) (blocks : list Block) :
  scanBlocks local blocks 0 =
  match head (filter (fun tx => isNoncedBy local tx = true)
                     (concat (map (fun b => reverse (transactions b)) blocks))) with
  | Some tx => addNumber (tx_nonce tx) 1
  | None => 0
  end.
Proof.
  induction blocks as [|block rest IH]; [reflexivity|].
  cbn [scanBlocks map concat]. rewrite scanTransactions_spec, head_filter_app.
  destruct (head (filter _ (reverse (transactions block)))) as [tx|] eqn:Hhd.
  - assert (isNoncedBy local tx = true) as Htx.
    { apply head_Some_elem_of in Hhd. by apply list_elem_of_filter in Hhd as [? _]. }
    apply isNoncedBy_positive, Z.ltb_lt in Htx. rewrite Htx. reflexivity.
  - simpl. exact IH.
Qed.

Lemma reverse_chainTransactions (c : list Block) :
  concat (map (fun b => reverse (transactions b)) (reverse c)) =
  reverse (chainTransactions c).
Proof.
  unfold chainTransactions.
  induction c as [|b c IH]; [reflexivity|].
  rewrite reverse_cons, map_app, concat_app. simpl.
  rewrite app_nil_r, IH, reverse_app. reflexivity.
Qed.

Lemma head_reverse {A} (l : list A) : head (reverse l) = last l.
Proof.
  destruct l as [|x l] using rev_ind; [reflexivity|].
  rewrite reverse_snoc, last_snoc. reflexivity.
Qed.

Lemma filter_reverse' {A} (P : A -> Prop) `{forall x, Decision (P x)} (l : list A) :
  filter P (reverse l) = reverse (filter P l).
Proof.
  induction l as [|x l IH]; [reflexivity|].
  rewrite reverse_cons, filter_app, IH, filter_cons.
  destruct (decide (P x)).
  - rewrite filter_cons_True by done. rewrite filter_nil, reverse_cons. reflexivity.
  - rewrite filter_cons_False by done. rewrite filter_nil, app_nil_r. reflexivity.
Qed.

(** [getNonce] is the last nonce it looks at plus 1, as the runtime adds. *)
Lemma getNonce_latest (n : Node) :
  getNonce n =
  match last (localNonces (acc_address (account n)) (chain (bc n))) with
  | Some latest => addNumber latest 1
  | None => 0
  end.
Proof.
  unfold getNonce, localNonces. rewrite scanBlocks_spec, reverse_chainTransactions.
  rewrite filter_reverse', head_reverse.
  rewrite fmap_last.
  destruct (last _); reflexivity.
Qed.

Lemma maximum_sorted (l : list Z) :
  Sorted Z.le l -> maximum l = last l.
Proof.
  intros Hs. apply Sorted_StronglySorted in Hs; [|intros ???; lia].
  induction Hs as [|x l Hl IH Hall]; [reflexivity|].
  cbn [maximum foldr]. fold (maximum l). rewrite IH, (last_cons x l).
  destruct (last l) as [m|] eqn:Hlast; [|reflexivity].
  f_equal. apply last_Some_elem_of in Hlast.
  rewrite Forall_forall in Hall. specialize (Hall m Hlast). lia.
Qed.

Lemma executeChainOnDb_fold (blocks : list Block) (n : Node) :
  let n' := foldl (fun n block =>
                     set_tp (updateNonceTrackers (transactions block) (tp n))
                            (set_db (executeTransactionList (transactions block) (db n)) n))
                  n blocks in
  bc n' = bc n /\ nonce n' = nonce n /\ account n' = account n
  /\ initialized n' = initialized n
  /\ db n' = replayBlocks blocks (db n) /\ tp n' = trackBlocks blocks (tp n).
Proof.
  revert n. induction blocks as [|block rest IH]; intros n; [simpl; auto 10|].
  cbn [foldl]. cbn zeta in IH.
  destruct (IH (set_tp (updateNonceTrackers (transactions block) (tp n))
                  (set_db (executeTransactionList (transactions block) (db n)) n)))
    as (-> & -> & -> & -> & -> & ->).
  simpl. auto 10.
Qed.

(** [reconstruct] written out: the live db is the copy of the snapshot with
    the in-memory blocks replayed in order and then the valid pool
    transactions; the pool has seen the in-memory blocks; nothing else
    changes. *)
Lemma reconstruct_spec (n : Node) :
  bc (reconstruct n) = bc n
  /\ nonce (reconstruct n) = nonce n
  /\ account (reconstruct n) = account n
  /\ initialized (reconstruct n) = initialized n
  /\ tp (reconstruct n) = trackBlocks (chain (bc n)) (tp n)
  /\ db (reconstruct n) =
       executeTransactionList
         (getValidTransactions (trackBlocks (chain (bc n)) (tp n)))
         (replayBlocks (chain (bc n)) (setDbToSnapshot (backupDb (bc n)) (db n))).
Proof.
  unfold reconstruct, executeChainOnDb.
  pose proof (executeChainOnDb_fold (chain (bc n))
                (set_db (setDbToSnapshot (backupDb (bc n)) (db n)) n)) as Hf.
  cbn zeta in Hf. cbn [bc set_db] in Hf.
  destruct Hf as (Hbc & Hno & Hacc & Hini & Hdb & Htp).
  cbn. rewrite Hbc, Hno, Hacc, Hini, Hdb, Htp. auto 10.
Qed.

End NodeFacts.

Section NodeClaims.
Context `{BlockApi, DbApi, FsApi, TxPoolApi, AddressApi}.

(** C4 (amended). After [Node.init] the local nonce is the nonce of the
    newest transaction of the in-memory chain that has the local account's
    address and a nonce of at least 0, plus 1 as the runtime adds numbers,
    or 0 if there is none. The sum is one more than that nonce when the
    nonce is below [2 ^ 53]; and it is one more than the maximum of those
    nonces when they occur in non-decreasing order along the chain and are
    below [2 ^ 53]. *)
Theorem Node_init_nonce (isFirstNode : bool) (n n' : Node)
    (Hinit : Node_init isFirstNode n = Returned tt n') :
  let nonces := localNonces (acc_address (account n')) (chain (bc n')) in
  nonce n' = Some (match last nonces with
                   | Some latest => addNumber latest 1
                   | None => 0
                   end)
  /\ (forall latest : Z,
        last nonces = Some latest -> latest < 2 ^ 53 ->
        nonce n' = Some (latest + 1))
  /\ (Sorted Z.le nonces -> Forall (fun x => x < 2 ^ 53) nonces ->
      nonce n' = Some (match maximum nonces with
                       | Some greatest => 1 + greatest
                       | None => 0
                       end)).
Proof.
  unfold Node_init in Hinit.
  apply bind_returned in Hinit as (u1 & n1 & _ & Hinit).
  apply bind_returned in Hinit as (u2 & n2 & _ & Hinit).
  apply bind_returned in Hinit as (u3 & n3 & Hnonce & Hinit).
  apply bind_returned in Hinit as (u4 & n4 & Hrec & Hinit).
  unfold modify in *.
  simplify_eq.
  destruct (reconstruct_spec (set_nonce (Some (getNonce n2)) n2))
    as (Hbc & Hno & Hacc & _).
  cbn zeta. cbn [bc nonce account set_initialized].
  rewrite Hbc, Hno, Hacc. cbn [bc nonce account set_nonce].
  rewrite getNonce_latest.
  set (nonces := localNonces (acc_address (account n2)) (chain (bc n2))).
  assert (forall x : Z, x ∈ nonces -> 0 <= x) as Hnonneg.
  { intros x (tx & -> & Htx)%list_elem_of_fmap.
    apply list_elem_of_filter in Htx as [Htx _].
    unfold isNoncedBy in Htx. apply andb_prop in Htx as [_ Hn%Z.ltb_lt]. lia. }
  assert (forall latest : Z,
             last nonces = Some latest -> latest < 2 ^ 53 ->
             addNumber latest 1 = latest + 1) as Hexact.
  { intros latest Hlast Hbound. apply addNumber_exact.
    pose proof (Hnonneg latest (last_Some_elem_of _ _ Hlast)). lia. }
  split_and!; [reflexivity| |].
  - intros latest Hlast Hbound. rewrite Hlast. f_equal. by apply Hexact.
  - intros Hsorted Hbound. rewrite (maximum_sorted _ Hsorted).
    destruct (last nonces) as [latest|] eqn:Hlast; [|reflexivity].
    f_equal. rewrite (Hexact latest eq_refl); [lia|].
    rewrite Forall_forall in Hbound. apply Hbound. by apply last_Some_elem_of.
Qed.

(** C9. [reconstruct] is idempotent on the live db: when the snapshot copy
    overwrites the live db and the pool hands out the same valid
    transactions once it has seen the in-memory blocks a second time, a
    second [reconstruct] leaves the live db of the first. *)
Theorem reconstruct_idempotent (n : Node)
    (Hcopy : forall (snapshot : option DB) (live live' : DB),
        setDbToSnapshot snapshot live = setDbToSnapshot snapshot live')
    (Hpool : getValidTransactions
               (trackBlocks (chain (bc n)) (trackBlocks (chain (bc n)) (tp n)))
             = getValidTransactions (trackBlocks (chain (bc n)) (tp n))) :
  db (reconstruct (reconstruct n)) = db (reconstruct n)
  /\ bc (reconstruct (reconstruct n)) = bc n.
Proof.
  destruct (reconstruct_spec (reconstruct n)) as (Hbc2 & _ & _ & _ & _ & Hdb2).
  destruct (reconstruct_spec n) as (Hbc & _ & _ & _ & Htp & Hdb).
  split; [|congruence].
  rewrite Hdb2, Hbc, Htp, Hpool.
  rewrite (Hcopy _ (db (reconstruct n)) (db n)).
  symmetry. exact Hdb.
Qed.

End NodeClaims.

(** * Properties of the proposer election *)

Lemma exceeds_true (cumulative : Z) (targetValue : Q) :
  exceeds cumulative targetValue = true <-> (targetValue < inject_Z cumulative)%Q.
Proof.
  unfold exceeds. rewrite negb_true_iff, <- not_true_iff_false, Qle_bool_iff.
  split; [apply Qnot_le_lt | apply Qlt_not_le].
Qed.

Lemma exceeds_false (cumulative : Z) (targetValue : Q) :
  exceeds cumulative targetValue = false <-> (inject_Z cumulative <= targetValue)%Q.
Proof.
  unfold exceeds. rewrite negb_false_iff. apply Qle_bool_iff.
Qed.

Section ElectionFacts.
Context `{Prng, DoubleArith}.
Implicit Types (validators : list (string * Z)) (addrs : list string).

Lemma stakeOf_elem validators (a : string) (s : Z) :
  NoDup (fst <$> validators) -> (a, s) ∈ validators -> stakeOf validators a = s.
Proof.
  induction validators as [|[k x] rest IH]; intros Hnodup Hin.
  - by apply elem_of_nil in Hin.
  - rewrite fmap_cons in Hnodup. apply NoDup_cons in Hnodup as [Hnotin Hnodup].
    cbn [stakeOf]. apply elem_of_cons in Hin as [[= -> ->]|Hin].
    + by rewrite String.eqb_refl.
    + destruct (String.eqb_spec k a) as [->|_]; [|by apply IH].
      exfalso. apply Hnotin, list_elem_of_fmap. by exists (a, s).
Qed.

Lemma stakeOf_nonneg validators (a : string) :
  (forall (k : string) (s : Z), (k, s) ∈ validators -> 0 <= s) ->
  0 <= stakeOf validators a.
Proof.
  induction validators as [|[k x] rest IH]; intros Hall; [done|].
  cbn [stakeOf]. destruct (String.eqb k a).
  - apply (Hall k x). apply list_elem_of_here.
  - apply IH. intros k' s Hin. apply (Hall k' s). by apply list_elem_of_further.
Qed.

Lemma stakeOf_positive validators (a : string) :
  (forall (k : string) (s : Z), (k, s) ∈ validators -> 0 < s) ->
  a ∈ fst <$> validators ->
  0 < stakeOf validators a.
Proof.
  induction validators as [|[k x] rest IH]; intros Hall Hin.
  - by apply elem_of_nil in Hin.
  - cbn [stakeOf]. destruct (String.eqb_spec k a) as [->|Hne].
    + apply (Hall a x). apply list_elem_of_here.
    + rewrite fmap_cons in Hin. apply elem_of_cons in Hin as [->|Hin]; [done|].
      apply IH; [|exact Hin].
      intros k' s Hk. apply (Hall k' s). by apply list_elem_of_further.
Qed.

Lemma cumulativeStake_Permutation validators addrs1 addrs2 :
  addrs1 ≡ₚ addrs2 ->
  cumulativeStake validators addrs1 = cumulativeStake validators addrs2.
Proof. induction 1; simpl; lia. Qed.

Lemma cumulativeStake_nonneg validators addrs :
  (forall (k : string) (s : Z), (k, s) ∈ validators -> 0 <= s) ->
  0 <= cumulativeStake validators addrs.
Proof.
  intros Hall. induction addrs as [|a rest IH]; [done|].
  cbn [cumulativeStake]. pose proof (stakeOf_nonneg validators a Hall). lia.
Qed.

Lemma cumulativeStake_app validators addrs1 addrs2 :
  cumulativeStake validators (addrs1 ++ addrs2)
  = cumulativeStake validators addrs1 + cumulativeStake validators addrs2.
Proof. induction addrs1 as [|a rest IH]; simpl; lia. Qed.

Lemma cumulativeStake_skip validators (k : string) (x : Z) addrs :
  k ∉ addrs ->
  cumulativeStake ((k, x) :: validators) addrs = cumulativeStake validators addrs.
Proof.
  induction addrs as [|a rest IH]; intros Hnotin; [done|].
  apply not_elem_of_cons in Hnotin as [Hne Hnotin].
  cbn [cumulativeStake stakeOf]. rewrite (IH Hnotin).
  by destruct (String.eqb_spec k a).
Qed.

(** The stakes of the keys, added up exactly, in any order of the keys. *)
Lemma cumulativeStake_keys validators :
  NoDup (fst <$> validators) ->
  cumulativeStake validators (fst <$> validators) = foldr Z.add 0 (snd <$> validators).
Proof.
  induction validators as [|[k x] rest IH]; intros Hnodup; [done|].
  rewrite !fmap_cons in *. apply NoDup_cons in Hnodup as [Hnotin Hnodup].
  cbn [cumulativeStake foldr fst snd]. cbn [stakeOf]. rewrite String.eqb_refl.
  by rewrite (cumulativeStake_skip _ _ _ _ Hnotin), IH.
Qed.

(** A run of rounded sums that stays between 0 and [2 ^ 53] is exact. *)
Lemma foldl_addNumber_exact (l : list Z) :
  forall c : Z,
    0 <= c -> Forall (fun x => 0 <= x) l -> c + foldr Z.add 0 l <= 2 ^ 53 ->
    foldl addNumber c l = c + foldr Z.add 0 l.
Proof.
  induction l as [|x l IH]; intros c Hc Hall Hbound; [simpl; lia|].
  apply Forall_cons in Hall as [Hx Hall]. cbn [foldl foldr] in *.
  assert (0 <= foldr Z.add 0 l) as Hrest.
  { clear -Hall. induction Hall; simpl; lia. }
  rewrite addNumber_exact by lia. rewrite IH; [lia|lia|done|lia].
Qed.

Lemma exactStakes_values validators :
  exactStakes validators -> Forall (fun x => 0 <= x) (snd <$> validators).
Proof.
  intros [Hnonneg _]. apply Forall_forall. intros x ([k s] & -> & Hin)%list_elem_of_fmap.
  exact (Hnonneg k s Hin).
Qed.

Lemma totalAtStake_exact validators :
  exactStakes validators ->
  totalAtStake validators = foldr Z.add 0 (snd <$> validators).
Proof.
  intros Hexact. unfold totalAtStake.
  rewrite foldl_addNumber_exact; [lia|lia|by apply exactStakes_values|].
  destruct Hexact as [_ Hbound]. lia.
Qed.

Lemma sorted_Permutation validators :
  alphabeticallyOrderedValidators validators ≡ₚ fst <$> validators.
Proof. apply merge_sort_Permutation. Qed.

Lemma sorted_StronglySorted validators :
  StronglySorted String.le (alphabeticallyOrderedValidators validators).
Proof. apply StronglySorted_merge_sort; apply _. Qed.

Lemma sorted_elem_of validators (a : string) :
  a ∈ alphabeticallyOrderedValidators validators <-> a ∈ fst <$> validators.
Proof. by rewrite sorted_Permutation. Qed.

Lemma sorted_length validators :
  length (alphabeticallyOrderedValidators validators) = length validators.
Proof. by rewrite sorted_Permutation, length_fmap. Qed.

(** The sorted list does not depend on the order in which the keys of the
    object are enumerated. *)
Lemma sorted_any_enumeration validators (keys : list string) :
  keys ≡ₚ fst <$> validators ->
  merge_sort String.le keys = alphabeticallyOrderedValidators validators.
Proof.
  intros Hperm. apply (StronglySorted_unique String.le).
  - apply StronglySorted_merge_sort; apply _.
  - apply sorted_StronglySorted.
  - rewrite merge_sort_Permutation, sorted_Permutation. exact Hperm.
Qed.

(** With exact sums the total of the code is the exact sum over the
    sorted addresses. *)
Lemma totalAtStake_sorted validators :
  NoDup (fst <$> validators) -> exactStakes validators ->
  totalAtStake validators =
  cumulativeStake validators (alphabeticallyOrderedValidators validators).
Proof.
  intros Hnodup Hexact.
  rewrite totalAtStake_exact, <- cumulativeStake_keys by done.
  symmetry. apply cumulativeStake_Permutation, sorted_Permutation.
Qed.

(** Two objects with the same entries have the same stakes, key by key. *)
Lemma stakeOf_Permutation validators1 validators2 (a : string) :
  NoDup (fst <$> validators1) -> validators1 ≡ₚ validators2 ->
  stakeOf validators1 a = stakeOf validators2 a.
Proof.
  intros Hnodup Hperm.
  assert (NoDup (fst <$> validators2)) as Hnodup2 by by rewrite <- Hperm.
  destruct (decide (a ∈ fst <$> validators1)) as [Hin|Hnotin].
  - apply list_elem_of_fmap in Hin as ([k s] & -> & Hin). cbn [fst].
    rewrite (stakeOf_elem validators1 k s) by done.
    rewrite (stakeOf_elem validators2 k s); [done|done|by rewrite <- Hperm].
  - assert (forall v, a ∉ fst <$> v -> stakeOf v a = 0) as Hmissing.
    { induction v as [|[k x] rest IH]; intros Hv; [done|].
      rewrite fmap_cons in Hv. apply not_elem_of_cons in Hv as [Hne Hv].
      cbn [stakeOf]. destruct (String.eqb_spec k a); [done|by apply IH]. }
    rewrite (Hmissing validators1 Hnotin), Hmissing; [done|by rewrite <- Hperm].
Qed.

Lemma walkCounting_fst validators (t : Q) addrs :
  forall c : Z,
    fst (walkCounting validators t c addrs) = walkValidators validators t c addrs.
Proof.
  induction addrs as [|a rest IH]; intros c; [reflexivity|].
  cbn [walkCounting walkValidators]. cbn zeta.
  destruct (exceeds (addNumber c (stakeOf validators a)) t); [reflexivity|].
  rewrite <- IH. by destruct (walkCounting _ _ _ rest).
Qed.

Lemma walkCounting_snd validators (t : Q) addrs :
  forall c : Z, (snd (walkCounting validators t c addrs) <= length addrs)%nat.
Proof.
  induction addrs as [|a rest IH]; intros c; [reflexivity|].
  cbn [walkCounting length]. cbn zeta.
  destruct (exceeds (addNumber c (stakeOf validators a)) t); simpl; [lia|].
  specialize (IH (addNumber c (stakeOf validators a))).
  destruct (walkCounting _ _ _ rest). simpl in *. lia.
Qed.

(** While the running total stays between 0 and [2 ^ 53], the walk answers
    the first address at which the exact running total exceeds the target.
    *)
Lemma walkValidators_first validators (t : Q) addrs
    (Hnonneg : forall (k : string) (s : Z), (k, s) ∈ validators -> 0 <= s) :
  forall (c : Z) (a : string),
    0 <= c -> c + cumulativeStake validators addrs <= 2 ^ 53 ->
    walkValidators validators t c addrs = Some a <->
    exists i : nat,
      addrs !! i = Some a
      /\ exceeds (c + cumulativeStake validators (take (S i) addrs)) t = true
      /\ forall j : nat, (j < i)%nat ->
           exceeds (c + cumulativeStake validators (take (S j) addrs)) t = false.
Proof.
  induction addrs as [|a0 rest IH]; intros c a Hc Hbound.
  - simpl. split; [discriminate|]. intros (i & Hi & _). discriminate.
  - cbn [walkValidators]. cbn zeta. cbn [cumulativeStake] in Hbound.
    pose proof (stakeOf_nonneg validators a0 Hnonneg) as Hstake.
    pose proof (cumulativeStake_nonneg validators rest Hnonneg) as Hrest.
    rewrite addNumber_exact by lia.
    destruct (exceeds (c + stakeOf validators a0) t) eqn:Hex.
    + split.
      * intros [= <-]. exists 0%nat. simpl. rewrite Z.add_0_r. split_and!; auto.
        intros j Hj. lia.
      * intros (i & Hi & _ & Hbefore). destruct i as [|i].
        -- simpl in Hi. by injection Hi as ->.
        -- specialize (Hbefore 0%nat ltac:(lia)). simpl in Hbefore.
           rewrite Z.add_0_r in Hbefore. congruence.
    + rewrite IH by lia. split.
      * intros (i & Hi & Hat & Hbefore). exists (S i). split_and!.
        -- exact Hi.
        -- cbn [take cumulativeStake]. rewrite Z.add_assoc. exact Hat.
        -- intros [|j] Hj.
           ++ simpl. rewrite Z.add_0_r. exact Hex.
           ++ cbn [take cumulativeStake]. rewrite Z.add_assoc.
              apply Hbefore. lia.
      * intros (i & Hi & Hat & Hbefore). destruct i as [|i].
        -- simpl in Hat. rewrite Z.add_0_r in Hat. congruence.
        -- exists i. split_and!.
           ++ exact Hi.
           ++ cbn [take cumulativeStake] in Hat. by rewrite Z.add_assoc in Hat.
           ++ intros j Hj. specialize (Hbefore (S j) ltac:(lia)).
              cbn [take cumulativeStake] in Hbefore.
              by rewrite Z.add_assoc in Hbefore.
Qed.

(** When the whole stake, added up exactly, exceeds the target and stays
    within [2 ^ 53], the walk finds an address. *)
Lemma walkValidators_finds validators (t : Q) addrs
    (Hnonneg : forall (k : string) (s : Z), (k, s) ∈ validators -> 0 <= s) :
  forall c : Z,
    0 <= c -> c + cumulativeStake validators addrs <= 2 ^ 53 ->
    addrs <> [] ->
    exceeds (c + cumulativeStake validators addrs) t = true ->
    exists a : string, walkValidators validators t c addrs = Some a /\ a ∈ addrs.
Proof.
  induction addrs as [|a0 rest IH]; intros c Hc Hbound Hne Hall; [done|].
  cbn [walkValidators]. cbn zeta. cbn [cumulativeStake] in Hbound.
  pose proof (stakeOf_nonneg validators a0 Hnonneg) as Hstake.
  pose proof (cumulativeStake_nonneg validators rest Hnonneg) as Hrest.
  rewrite addNumber_exact by lia.
  destruct (exceeds (c + stakeOf validators a0) t) eqn:Hex.
  - exists a0. split; [reflexivity|]. apply list_elem_of_here.
  - destruct rest as [|a1 rest'].
    + simpl in Hall. rewrite Z.add_0_r in Hall. congruence.
    + destruct (IH (c + stakeOf validators a0)) as (a & Ha & Hin); [lia|lia|done| |].
      * cbn [cumulativeStake] in Hall. by rewrite Z.add_assoc in Hall.
      * exists a. split; [exact Ha|]. by apply list_elem_of_further.
Qed.

End ElectionFacts.

Section ElectionClaims.
Context `{Prng, DoubleArith}.
Implicit Types (validators : list (string * Z)) (addrs : list string).

Lemma cumulativeStake_positive validators addrs :
  addrs <> [] ->
  (forall a, a ∈ addrs -> 0 < stakeOf validators a) ->
  0 < cumulativeStake validators addrs
  /\ forall a, a ∈ addrs -> stakeOf validators a <= cumulativeStake validators addrs.
Proof.
  induction addrs as [|a0 rest IH]; intros Hne Hpos; [done|].
  cbn [cumulativeStake].
  pose proof (Hpos a0 (list_elem_of_here _ _)) as Hfirst.
  destruct rest as [|a1 rest'].
  - simpl. split; [lia|]. intros a ->%list_elem_of_singleton. lia.
  - destruct IH as [Hsum Hle]; [done| |].
    + intros a Ha. apply Hpos. by apply list_elem_of_further.
    + split; [lia|]. intros a [->|Ha]%elem_of_cons; [lia|].
      specialize (Hle a Ha). lia.
Qed.

(** The walk over a non-empty validator set with positive stakes that add
    up to [2 ^ 53] at most, for a sample below 1: it answers an address of
    the set whose stake is positive and at most the total, after at most
    one comparison per validator. [Hproduct] is what the proof needs of the
    product of the sample and the total: for a sample below 1 and a
    positive total it is below the total (the exact product is, and
    rounding to the nearest double keeps it so). *)
Lemma selectProposerWith_finds validators
    (seedBlockHash : string) (round : Z)
    (Hsample : (0 <= seedrandom (seedOf seedBlockHash round)
                /\ seedrandom (seedOf seedBlockHash round) < 1)%Q)
    (Hproduct :
       (seedrandom (seedOf seedBlockHash round) < 1 ->
        0 < inject_Z (totalAtStake validators) ->
        mulDouble (seedrandom (seedOf seedBlockHash round))
                  (inject_Z (totalAtStake validators))
        < inject_Z (totalAtStake validators))%Q)
    (Hkeys : NoDup (fst <$> validators))
    (Hne : validators <> [])
    (Hpos : forall (a : string) (s : Z), (a, s) ∈ validators -> 0 < s)
    (Hbound : foldr Z.add 0 (snd <$> validators) <= 2 ^ 53) :
  exists (a : string) (s : Z),
    selectProposerWith validators seedBlockHash round = Some a
    /\ (a, s) ∈ validators
    /\ 0 < s <= totalAtStake validators
    /\ fst (walkCounting validators
              (targetValueOf validators (seedOf seedBlockHash round)) 0
              (alphabeticallyOrderedValidators validators)) = Some a
    /\ (snd (walkCounting validators
               (targetValueOf validators (seedOf seedBlockHash round)) 0
               (alphabeticallyOrderedValidators validators))
        <= length validators)%nat.
Proof.
  set (sorted := alphabeticallyOrderedValidators validators).
  set (t := targetValueOf validators (seedOf seedBlockHash round)).
  assert (forall (k : string) (s : Z), (k, s) ∈ validators -> 0 <= s) as Hnonneg.
  { intros k s Hin. specialize (Hpos k s Hin). lia. }
  assert (exactStakes validators) as Hexact by done.
  assert (sorted <> []) as Hsorted.
  { intros Hnil. apply (f_equal length) in Hnil. unfold sorted in Hnil.
    rewrite sorted_length in Hnil. by destruct validators. }
  assert (forall a, a ∈ sorted -> 0 < stakeOf validators a) as Hstakes.
  { intros a Ha%sorted_elem_of. by apply stakeOf_positive. }
  destruct (cumulativeStake_positive validators sorted Hsorted Hstakes)
    as [Htotal Hle].
  pose proof (totalAtStake_sorted validators Hkeys Hexact) as Htot. fold sorted in Htot.
  assert (cumulativeStake validators sorted <= 2 ^ 53) as Hcum.
  { rewrite <- Htot, totalAtStake_exact by done. exact Hbound. }
  assert (exceeds (0 + cumulativeStake validators sorted) t = true) as Hall.
  { apply exceeds_true. rewrite Z.add_0_l. unfold t, targetValueOf.
    rewrite <- Htot. destruct Hsample as [_ Hlt]. apply Hproduct; [exact Hlt|].
    rewrite Htot. change 0%Q with (inject_Z 0). by rewrite <- Zlt_Qlt. }
  destruct (walkValidators_finds validators t sorted Hnonneg 0) as (a & Hwalk & Hin);
    [lia|lia|done|done|].
  pose proof Hin as ([k s] & -> & Hs)%sorted_elem_of%list_elem_of_fmap.
  cbn [fst] in *.
  exists k, s. split_and!.
  - exact Hwalk.
  - exact Hs.
  - apply (Hpos k s Hs).
  - rewrite Htot. specialize (Hle k Hin).
    by rewrite (stakeOf_elem validators k s Hkeys Hs) in Hle.
  - rewrite walkCounting_fst. exact Hwalk.
  - rewrite <- sorted_length. apply walkCounting_snd.
Qed.

End ElectionClaims.
(** * Properties of the consensus engine *)

Section EngineClaims.
Context `{BlockApi, DbApi, FsApi, TxPoolApi, AddressApi, Config, Prng, DoubleArith,
          !ServerApi}.

Lemma olderThan_keyLt (t1 t2 : TimeoutInfo) :
  olderThan t1 t2 = true <-> keyLt t1 t2.
Proof.
  unfold olderThan, keyLt.
  rewrite orb_true_iff, andb_true_iff, !Z.ltb_lt, Z.eqb_eq. reflexivity.
Qed.

Lemma keyLt_irrefl (t : TimeoutInfo) : ~ keyLt t t.
Proof. unfold keyLt. lia. Qed.

Lemma not_keyLt_trans (t1 t2 t3 : TimeoutInfo) :
  ~ keyLt t2 t1 -> ~ keyLt t3 t2 -> ~ keyLt t3 t1.
Proof. unfold keyLt. lia. Qed.

(** One call of [scheduleTimeout] with a timer armed: the armed key after
    the call is the old one or the new one, and it is not smaller than the
    old one. *)
Lemma scheduleTimeout_armed (c : Consensus) (ti newTimeoutInfo : TimeoutInfo)
    (durationMs : Z) :
  timeoutInfo c = Some ti ->
  exists armed : TimeoutInfo,
    timeoutInfo (stateOf (scheduleTimeout newTimeoutInfo durationMs c)) = Some armed
    /\ ~ keyLt armed ti.
Proof.
  intros Harmed. unfold scheduleTimeout. rewrite Harmed.
  destruct (olderThan newTimeoutInfo ti) eqn:Hold.
  - exists ti. split; [exact Harmed|]. apply keyLt_irrefl.
  - exists newTimeoutInfo. split.
    + by destruct (timeoutId c).
    + rewrite <- olderThan_keyLt. by rewrite Hold.
Qed.

Lemma scheduleAll_armed (requests : list (TimeoutInfo * Z)) :
  forall (c : Consensus) (ti : TimeoutInfo),
    timeoutInfo c = Some ti ->
    exists armed : TimeoutInfo,
      timeoutInfo (scheduleAll requests c) = Some armed /\ ~ keyLt armed ti.
Proof.
  induction requests as [|[info ms] rest IH]; intros c ti Harmed.
  - exists ti. split; [exact Harmed|]. apply keyLt_irrefl.
  - cbn [scheduleAll foldl fst snd].
    destruct (scheduleTimeout_armed c ti info ms Harmed) as (mid & Hmid & Hge).
    destruct (IH _ mid Hmid) as (armed & Harmed' & Hge').
    exists armed. split; [exact Harmed'|].
    eapply not_keyLt_trans; eassumption.
Qed.

(** X26. With the key [ti] recorded in [timeoutInfo], [scheduleTimeout]
    ignores a key that is strictly smaller (number first, then round) and
    leaves the engine as it was; for any other key it cancels the timer
    recorded in [timeoutId], arms a new one for the new key and records
    both. Hence no run of [scheduleTimeout] calls records a key smaller
    than [ti]. *)
Theorem scheduleTimeout_monotonic (c : Consensus) (ti newTimeoutInfo : TimeoutInfo)
    (durationMs : Z) (Harmed : timeoutInfo c = Some ti) :
  (keyLt newTimeoutInfo ti ->
   scheduleTimeout newTimeoutInfo durationMs c = Returned tt c)
  /\ (~ keyLt newTimeoutInfo ti ->
      exists c' : Consensus,
        scheduleTimeout newTimeoutInfo durationMs c = Returned tt c'
        /\ timeoutInfo c' = Some newTimeoutInfo
        /\ timeoutId c' = Some (nextTimerId c)
        /\ timers c' =
             match timeoutId c with
             | Some id => filter (fun t => timer_id t <> id) (timers c)
             | None => timers c
             end
             ++ [mkTimer (nextTimerId c) (CallHandleTimeout newTimeoutInfo) durationMs]
        /\ nextTimerId c' = S (nextTimerId c)
        /\ node c' = node c /\ state c' = state c /\ status c' = status c
        /\ serverCalls c' = serverCalls c)
  /\ (forall requests : list (TimeoutInfo * Z),
        exists armed : TimeoutInfo,
          timeoutInfo (scheduleAll requests c) = Some armed /\ ~ keyLt armed ti).
Proof.
  split_and!.
  - intros Hlt%olderThan_keyLt. unfold scheduleTimeout.
    rewrite Harmed, Hlt. reflexivity.
  - intros Hge. unfold scheduleTimeout. rewrite Harmed.
    destruct (olderThan newTimeoutInfo ti) eqn:Hold.
    { by apply olderThan_keyLt in Hold. }
    destruct (timeoutId c) as [id|]; eexists; split_and!; reflexivity.
  - intros requests. by apply scheduleAll_armed.
Qed.

(** C6. A running engine that receives a proposal: a block number below
    [state.number] changes nothing; a block number above it clears
    [syncedAfterStartup], asks the server for a chain subsection from the
    local last block and commits nothing; a block with the expected number is
    committed and the message broadcast when [checkProposal] holds, and
    dropped otherwise. *)
Theorem handleConsensusMessage_number_gate (c : Consensus) (msg : ConsensusMessage)
    (value : Block)
    (Hrunning : status c = RUNNING)
    (Htype : msg_type msg = PROPOSE)
    (Hvalue : msg_value msg = Some value) :
  (number value < state_number (state c) ->
   handleConsensusMessage msg c = Returned tt c)
  /\ (state_number (state c) < number value ->
      exists c' : Consensus,
        handleConsensusMessage msg c = Returned tt c'
        /\ syncedAfterStartup (bc (node c')) = false
        /\ serverCalls c' =
             serverCalls c ++ [RequestChainSubsection (lastBlock (bc (node c)))]
        /\ chain (bc (node c')) = chain (bc (node c))
        /\ backupDb (bc (node c')) = backupDb (bc (node c))
        /\ db (node c') = db (node c)
        /\ tp (node c') = tp (node c)
        /\ state c' = state c
        /\ timers c' = timers c)
  /\ (number value = state_number (state c) ->
      checkProposal value c = true ->
      handleConsensusMessage msg c =
      (commit value ;; modify (broadcastConsensusMessage msg)) c)
  /\ (number value = state_number (state c) ->
      checkProposal value c = false ->
      handleConsensusMessage msg c = Returned tt c)
  /\ (chain (bc (node (stateOf (handleConsensusMessage msg c)))) <> chain (bc (node c))
      \/ (exists m, BroadcastConsensusMessage m
                      ∈ serverCalls (stateOf (handleConsensusMessage msg c))
                    /\ BroadcastConsensusMessage m ∉ serverCalls c) ->
      number value = state_number (state c) /\ checkProposal value c = true).
Proof.
  unfold handleConsensusMessage. rewrite Hrunning, Htype, Hvalue.
  destruct (Z.eqb_spec (number value) (state_number (state c))) as [Heq|Hne];
    cbn [negb].
  - split_and!; try (intros; lia).
    + intros _ ->. reflexivity.
    + intros _ ->. reflexivity.
    + destruct (checkProposal value c) eqn:Hcheck; [done|].
      simpl. intros [Hchain|(m & Hin & Hnot)]; done.
  - destruct (Z.ltb_spec (state_number (state c)) (number value)) as [Hgt|Hle].
    + split_and!; try (intros; lia).
      * intros _. eexists. split; [reflexivity|].
        split_and!; reflexivity.
      * simpl. intros [Hchain|(m & Hin & Hnot)]; [done|].
        apply elem_of_app in Hin as [Hin|Hin]; [done|].
        apply list_elem_of_singleton in Hin. discriminate.
    + split_and!; try (intros; lia).
      * intros _. reflexivity.
      * simpl. intros [Hchain|(m & Hin & Hnot)]; done.
Qed.

(** X3. [stop] clears [timeoutInfo] and leaves every pending timer in place:
    [clearTimeout] is handed the key, not the timer. A [scheduleTimeout]
    that follows arms its key whatever the key of the timer still pending. *)
Lemma stop_leaves_timer_pending (c : Consensus) (newTimeoutInfo : TimeoutInfo)
    (durationMs : Z) :
  timers (stop c) = timers c
  /\ timeoutId (stop c) = timeoutId c
  /\ timeoutInfo (stop c) = None
  /\ status (stop c) = STOPPED
  /\ exists c' : Consensus,
       scheduleTimeout newTimeoutInfo durationMs (stop c) = Returned tt c'
       /\ timeoutInfo c' = Some newTimeoutInfo
       /\ timers c' =
            timers c
            ++ [mkTimer (nextTimerId c) (CallHandleTimeout newTimeoutInfo) durationMs].
Proof.
  assert (timeoutInfo (stop c) = None) as Hinfo.
  { unfold stop. cbn zeta.
    by destruct (timeoutInfo (setStatus STOPPED "stop" c)) eqn:Hset. }
  assert (timers (stop c) = timers c /\ timeoutId (stop c) = timeoutId c
          /\ status (stop c) = STOPPED /\ nextTimerId (stop c) = nextTimerId c)
    as (Htimers & Hid & Hstatus & Hnext).
  { unfold stop. cbn zeta.
    by destruct (timeoutInfo (setStatus STOPPED "stop" c)). }
  split_and!; auto.
  unfold scheduleTimeout. rewrite Hinfo. eexists. split; [reflexivity|].
  cbn. rewrite Htimers, Hnext. done.
Qed.

Lemma walkValidators_ext (validators1 validators2 : list (string * Z)) (t : Q)
    (addrs : list string) :
  (forall a : string, stakeOf validators1 a = stakeOf validators2 a) ->
  forall c : Z,
    walkValidators validators1 t c addrs = walkValidators validators2 t c addrs.
Proof.
  intros Hsame. induction addrs as [|a rest IH]; intros c; [done|].
  cbn [walkValidators]. cbn zeta. rewrite Hsame.
  destruct (exceeds _ _); [done|apply IH].
Qed.

Lemma exactStakes_Permutation (validators1 validators2 : list (string * Z)) :
  validators1 ≡ₚ validators2 -> exactStakes validators1 ->
  exactStakes validators2
  /\ foldr Z.add 0 (snd <$> validators2) = foldr Z.add 0 (snd <$> validators1).
Proof.
  intros Hperm [Hnonneg Hbound].
  assert (foldr Z.add 0 (snd <$> validators2) = foldr Z.add 0 (snd <$> validators1))
    as Hsum.
  { clear -Hperm. induction Hperm as [|x l l' _ IH| |l1 l2 l3 _ IH1 _ IH2];
      rewrite ?fmap_cons; cbn [foldr]; lia. }
  split; [|exact Hsum]. split; [|by rewrite Hsum].
  intros a s Hin. apply (Hnonneg a s). by rewrite Hperm.
Qed.

(** C8 (amended). For a non-empty validator set with positive stakes that
    add up to [2 ^ 53] at most, a seed block in the store and a sample in
    [0, 1), [selectProposer] returns an address of the set (the
    fall-through after the loop is not reached); the stake of that
    validator is positive and at most the total stake; and the loop
    compares at most once per validator. [Hproduct] is what the proof needs
    of the double product: for a sample below 1 and a positive total, the
    product of the two is below the total (the exact product is, and
    rounding to the nearest double keeps it so). *)
Theorem selectProposer_positive_stakes (c : Consensus)
    (validators : list (string * Z)) (seedBlock : Block)
    (Hv : getValidatorsAtNumber c (state_number (state c)) = Some validators)
    (Hs : seedBlockOf c = Some seedBlock)
    (Hsample :
       (0 <= seedrandom (seedOf (hash seedBlock) (state_round (state c)))
        /\ seedrandom (seedOf (hash seedBlock) (state_round (state c))) < 1)%Q)
    (Hproduct :
       (seedrandom (seedOf (hash seedBlock) (state_round (state c))) < 1 ->
        0 < inject_Z (totalAtStake validators) ->
        mulDouble (seedrandom (seedOf (hash seedBlock) (state_round (state c))))
                  (inject_Z (totalAtStake validators))
        < inject_Z (totalAtStake validators))%Q)
    (Hkeys : NoDup (fst <$> validators))
    (Hne : validators <> [])
    (Hpos : forall (a : string) (s : Z), (a, s) ∈ validators -> 0 < s)
    (Hbound : foldr Z.add 0 (snd <$> validators) <= 2 ^ 53) :
  let targetValue :=
    targetValueOf validators (seedOf (hash seedBlock) (state_round (state c))) in
  let sorted := alphabeticallyOrderedValidators validators in
  exists (a : string) (s : Z),
    selectProposer c = Returned (Some a) c
    /\ (a, s) ∈ validators
    /\ 0 < s <= totalAtStake validators
    /\ fst (walkCounting validators targetValue 0 sorted) = Some a
    /\ (snd (walkCounting validators targetValue 0 sorted) <= length validators)%nat.
Proof.
  cbn zeta.
  destruct (selectProposerWith_finds validators (hash seedBlock)
              (state_round (state c)) Hsample Hproduct Hkeys Hne Hpos Hbound)
    as (a & s & Hsel & Hstake & Hle & Hfst & Hsnd).
  exists a, s. split_and!; try assumption; try apply Hle.
  unfold selectProposer. rewrite Hv.
  rewrite bool_decide_eq_false_2 by done.
  rewrite Hs, Hsel. reflexivity.
Qed.

(** C1 (amended). Two engines that hold the same validator set (the same
    entries, in whatever order the keys are enumerated) with stakes that
    are not negative and add up to [2 ^ 53] at most, seed blocks with the
    same hash and the same round elect the same proposer. That proposer is
    a function of the three: the addresses are taken in ascending order,
    one sample of the generator seeded with the hash followed by the
    decimal round is multiplied by the total stake, and the answer is the
    first address at which the running total of stakes exceeds that
    target. *)
Theorem selectProposer_deterministic (c1 c2 : Consensus)
    (validators1 validators2 : list (string * Z)) (seedBlock1 seedBlock2 : Block)
    (Hv1 : getValidatorsAtNumber c1 (state_number (state c1)) = Some validators1)
    (Hv2 : getValidatorsAtNumber c2 (state_number (state c2)) = Some validators2)
    (Hkeys : NoDup (fst <$> validators1))
    (Hsame : validators1 ≡ₚ validators2)
    (Hne : validators1 <> [])
    (Hexact : exactStakes validators1)
    (Hs1 : seedBlockOf c1 = Some seedBlock1)
    (Hs2 : seedBlockOf c2 = Some seedBlock2)
    (Hhash : hash seedBlock1 = hash seedBlock2)
    (Hround : state_round (state c1) = state_round (state c2)) :
  let sorted := alphabeticallyOrderedValidators validators1 in
  let total := cumulativeStake validators1 sorted in
  let targetValue :=
    mulDouble (seedrandom (hash seedBlock1 ++ pretty (state_round (state c1))))
              (inject_Z total) in
  exists p : option string,
    selectProposer c1 = Returned p c1
    /\ selectProposer c2 = Returned p c2
    /\ p = selectProposerWith validators1 (hash seedBlock1) (state_round (state c1))
    /\ StronglySorted String.le sorted
    /\ (forall a : string, a ∈ sorted <-> a ∈ fst <$> validators1)
    /\ (forall keys : list string,
          keys ≡ₚ fst <$> validators1 ->
          merge_sort String.le keys = sorted)
    /\ totalAtStake validators1 = total
    /\ totalAtStake validators2 = total
    /\ (forall a : string,
          p = Some a <->
          exists i : nat,
            sorted !! i = Some a
            /\ (targetValue
                < inject_Z (cumulativeStake validators1 (take (S i) sorted)))%Q
            /\ forall j : nat, (j < i)%nat ->
                 (inject_Z (cumulativeStake validators1 (take (S j) sorted))
                  <= targetValue)%Q).
Proof.
  cbn zeta.
  destruct (exactStakes_Permutation _ _ Hsame Hexact) as [Hexact2 Hsum].
  assert (validators2 <> []) as Hne2.
  { intros ->. by apply Permutation_nil_r in Hsame. }
  assert (alphabeticallyOrderedValidators validators2
          = alphabeticallyOrderedValidators validators1) as Hsorted.
  { apply sorted_any_enumeration. by rewrite Hsame. }
  pose proof (totalAtStake_sorted validators1 Hkeys Hexact) as Htotal1.
  assert (totalAtStake validators2 = totalAtStake validators1) as Htotal.
  { by rewrite !totalAtStake_exact. }
  assert (selectProposerWith validators2 (hash seedBlock1) (state_round (state c1))
          = selectProposerWith validators1 (hash seedBlock1) (state_round (state c1)))
    as Hwith.
  { unfold selectProposerWith, targetValueOf. cbn zeta. rewrite Hsorted, Htotal.
    apply walkValidators_ext. intros a. symmetry. by apply stakeOf_Permutation. }
  exists (selectProposerWith validators1 (hash seedBlock1) (state_round (state c1))).
  split_and!.
  - unfold selectProposer. rewrite Hv1, bool_decide_eq_false_2 by done.
    rewrite Hs1. reflexivity.
  - unfold selectProposer. rewrite Hv2, bool_decide_eq_false_2 by done.
    rewrite Hs2, <- Hhash, <- Hround, Hwith. reflexivity.
  - reflexivity.
  - apply sorted_StronglySorted.
  - apply sorted_elem_of.
  - apply sorted_any_enumeration.
  - exact Htotal1.
  - by rewrite Htotal.
  - intros a. unfold selectProposerWith, targetValueOf, seedOf. cbn zeta.
    destruct Hexact as [Hnonneg Hbound].
    rewrite (walkValidators_first _ _ _ Hnonneg), Htotal1; [|lia|].
    2:{ rewrite Z.add_0_l, <- Htotal1, totalAtStake_exact by done. exact Hbound. }
    split; intros (i & Hi & Hat & Hbefore); exists i; split_and!; auto.
    + apply exceeds_true in Hat. by rewrite Z.add_0_l in Hat.
    + intros j Hj. specialize (Hbefore j Hj).
      apply exceeds_false in Hbefore. by rewrite Z.add_0_l in Hbefore.
    + apply exceeds_true. by rewrite Z.add_0_l.
    + intros j Hj. apply exceeds_false. rewrite Z.add_0_l. by apply Hbefore.
Qed.

End EngineClaims.

(** * The claims on concrete stores, nodes and engines *)

Section Examples.
Import Sample.
Local Existing Instances blockApi dbApi fsApi txPoolApi addressApi config prng
  doubleArith serverApi.



(** C3, as stated, fails: a section that ends below the local last block is
    rejected without flagging the store as synced. *)
Lemma merge_lower_section_not_flagged :
  last [b0] = Some b0
  /\ number b0 <= lastBlockNumber twoBlocks
  /\ syncedAfterStartup twoBlocks = false
  /\ merge [b0] twoBlocks = Returned false twoBlocks
  /\ syncedAfterStartup (stateOf (merge [b0] twoBlocks)) = false.
Proof. vm_compute. split_and!; done. Qed.

Lemma merge_rejects_not_newer_witness :
  exists bc' : Blockchain,
    merge [b0; b1] twoBlocks = Returned false bc'
    /\ chain bc' = chain twoBlocks
    /\ syncedAfterStartup bc' = true.
Proof.
  destruct (merge_rejects_not_newer twoBlocks [b0; b1] b1) as (bc' & Hm & Hc & _ & _ & Hs).
  - reflexivity.
  - vm_compute. discriminate.
  - exists bc'. split_and!; [exact Hm|exact Hc|exact Hs].
Defined.

(** C4, as stated, fails: after [init] on a saved chain with the nonces 5
    and 2 the local nonce is 3, not 6. *)
Lemma Node_init_nonce_not_maximum :
  exists n' : Node,
    Node_init false restarted = Returned tt n'
    /\ localNonces "A" (chain (bc n')) = [5; 2]
    /\ nonce n' = Some 3
    /\ maximum (localNonces "A" (chain (bc n'))) = Some 5.
Proof.
  exists (stateOf (Node_init false restarted)).
  split_and!; vm_compute; reflexivity.
Qed.

Lemma Node_init_nonce_witness :
  nonce (stateOf (Node_init false restarted)) =
  Some (match last (localNonces "A" (chain (bc (stateOf (Node_init false restarted))))) with
        | Some latest => addNumber latest 1
        | None => 0
        end).
Proof.
  refine (proj1 (Node_init_nonce false restarted (stateOf (Node_init false restarted)) _)).
  vm_compute. reflexivity.
Defined.

Lemma addNewBlock_window_witness :
  (length (chain (stateOf (addNewBlock (Some (numbered 10)) tenBlocks))) <= 10)%nat
  /\ backupDb (stateOf (addNewBlock (Some (numbered 10)) tenBlocks)) = Some [[tx "A" 0]].
Proof.
  split.
  - refine (proj1 (addNewBlock_window tenBlocks _ (Some (numbered 10)) _)).
    vm_compute. reflexivity.
  - vm_compute. reflexivity.
Defined.

Lemma requestBlockchainSection_empty_chain_witness :
  requestBlockchainSection None (store [] None false) = Thrown (store [] None false).
Proof.
  refine (proj1 (requestBlockchainSection_empty_chain (store [] None false)) _ None _);
    vm_compute; reflexivity.
Defined.

Lemma reconstruct_idempotent_witness :
  db (reconstruct (reconstruct (nodeOf twoBlocks [tx "A" 0; tx "A" 1] "A")))
  = db (reconstruct (nodeOf twoBlocks [tx "A" 0; tx "A" 1] "A")).
Proof.
  refine (proj1 (reconstruct_idempotent
                   (nodeOf twoBlocks [tx "A" 0; tx "A" 1] "A") _ _)).
  - intros snapshot live live'. reflexivity.
  - vm_compute. reflexivity.
Defined.

(** The sum in [getNonce] is a sum of the runtime: after the nonce
    [2 ^ 53] the local nonce is [2 ^ 53] again. *)
Lemma getNonce_rounds :
  localNonces "A" (chain (bc largeNonce)) = [2 ^ 53]
  /\ getNonce largeNonce = 2 ^ 53.
Proof. vm_compute. split; reflexivity. Qed.

Lemma selectProposer_positive_stakes_witness :
  exists (a : string) (s : Z),
    selectProposer engineA = Returned (Some a) engineA
    /\ (a, s) ∈ validatorsABC
    /\ 0 < s <= totalAtStake validatorsABC.
Proof.
  assert (Forall (fun e : string * Z => 0 < snd e) validatorsABC) as Hall.
  { apply (bool_decide_unpack _). vm_compute. exact I. }
  destruct (selectProposer_positive_stakes engineA validatorsABC
              (electedBlock 1 "deadbeef" "g0"))
    as (a & s & Hsel & Hs & Hbound & _).
  - vm_compute. reflexivity.
  - vm_compute. reflexivity.
  - vm_compute. split; [discriminate|reflexivity].
  - intros _ _. vm_compute. reflexivity.
  - apply (bool_decide_unpack _). vm_compute. exact I.
  - discriminate.
  - intros a s Hin. exact (proj1 (Forall_forall _ _) Hall (a, s) Hin).
  - vm_compute. discriminate.
  - exists a, s. split_and!; [exact Hsel|exact Hs|apply Hbound|apply Hbound].
Defined.

Lemma selectProposer_deterministic_witness :
  exists p : option string,
    selectProposer engineA = Returned p engineA
    /\ selectProposer (engineWith validatorsCBA) = Returned p (engineWith validatorsCBA).
Proof.
  assert (Forall (fun e : string * Z => 0 <= snd e) validatorsABC) as Hall.
  { apply (bool_decide_unpack _). vm_compute. exact I. }
  destruct (selectProposer_deterministic engineA (engineWith validatorsCBA)
              validatorsABC validatorsCBA
              (electedBlock 1 "deadbeef" "g0")
              (mkBlock 1 "deadbeef" "g0" 0 [] "A" validatorsCBA true))
    as (p & HA & HB & _).
  - vm_compute. reflexivity.
  - vm_compute. reflexivity.
  - apply (bool_decide_unpack _). vm_compute. exact I.
  - unfold validatorsABC, validatorsCBA.
    etransitivity; [apply Permutation_rev|]. reflexivity.
  - discriminate.
  - split.
    + intros a s Hin. exact (proj1 (Forall_forall _ _) Hall (a, s) Hin).
    + vm_compute. discriminate.
  - vm_compute. reflexivity.
  - vm_compute. reflexivity.
  - reflexivity.
  - reflexivity.
  - exists p. split; [exact HA|exact HB].
Defined.

(** C7. The claim fails after [stop]. An engine at height 2 with the
    timeout of round 1 armed is stopped, started again, and the
    [tryPropose] timer that [start] arms fires: the timeout of round 1 is
    still pending, the timeout of round 0, a smaller key, is armed beside
    it, and it is the one recorded. [stop] alone leaves the timer pending
    and forgets its key, so that a [scheduleTimeout] for any smaller key
    arms it without cancelling anything. *)
Lemma stop_then_smaller_key_armed :
  timeoutInfo armedRound1 = Some (mkTimeoutInfo 2 1)
  /\ timers armedRound1 = [mkTimer 0 (CallHandleTimeout (mkTimeoutInfo 2 1)) 10000]
  /\ timers stoppedAndStarted
     = [mkTimer 0 (CallHandleTimeout (mkTimeoutInfo 2 1)) 10000;
        mkTimer 2 (CallHandleTimeout (mkTimeoutInfo 2 0)) 10000]
  /\ timeoutInfo stoppedAndStarted = Some (mkTimeoutInfo 2 0)
  /\ keyLt (mkTimeoutInfo 2 0) (mkTimeoutInfo 2 1)
  /\ timers (stateOf (scheduleTimeout (mkTimeoutInfo 1 7) 10000 (stop armedRound1)))
     = [mkTimer 0 (CallHandleTimeout (mkTimeoutInfo 2 1)) 10000;
        mkTimer 1 (CallHandleTimeout (mkTimeoutInfo 1 7)) 10000]
  /\ timeoutInfo (stateOf (scheduleTimeout (mkTimeoutInfo 1 7) 10000 (stop armedRound1)))
     = Some (mkTimeoutInfo 1 7).
Proof.
  split_and!; try (vm_compute; reflexivity).
  right. split; [reflexivity|]. cbn. lia.
Qed.

Lemma handleConsensusMessage_number_gate_witness :
  exists c' : Consensus,
    handleConsensusMessage (proposal 9) engineA = Returned tt c'
    /\ syncedAfterStartup (bc (node c')) = false
    /\ serverCalls c' =
         serverCalls engineA ++ [RequestChainSubsection (lastBlock (bc (node engineA)))]
    /\ chain (bc (node c')) = chain (bc (node engineA)).
Proof.
  destruct (handleConsensusMessage_number_gate engineA (proposal 9)
              (electedBlock 9 "h9" "h8") eq_refl eq_refl eq_refl)
    as (_ & Hfuture & _).
  destruct Hfuture as (c' & Hrun & Hsync & Hcalls & Hchain & _).
  - vm_compute. reflexivity.
  - exists c'. split_and!; assumption.
Defined.

Lemma scheduleTimeout_monotonic_witness :
  scheduleTimeout (mkTimeoutInfo 1 7) 10000 engineB = Returned tt engineB.
Proof.
  refine (proj1 (scheduleTimeout_monotonic engineB (mkTimeoutInfo 2 0)
                   (mkTimeoutInfo 1 7) 10000 eq_refl) _).
  left. vm_compute. reflexivity.
Defined.


Lemma mergeBlocks_history_witness :
  exists shifted : list Block,
    chain tenBlocks ++ (asBlock <$> [numbered 10; numbered 11])
    = shifted ++ chain (stateOf (mergeBlocks [numbered 10; numbered 11] tenBlocks))
    /\ backupDb (stateOf (mergeBlocks [numbered 10; numbered 11] tenBlocks))
       = applyShifted shifted <$> backupDb tenBlocks.
Proof.
  destruct (mergeBlocks_history [numbered 10; numbered 11] tenBlocks
              (stateOf (mergeBlocks [numbered 10; numbered 11] tenBlocks)))
    as (shifted & Hhistory & Hdb & _).
  - vm_compute. reflexivity.
  - exists shifted. split; [exact Hhistory|exact Hdb].
Defined.

End Examples.

(** With a sample that is the largest double below 1 and stakes that add
    up to more than [2 ^ 53], the sums of the code round. *)
Section RoundingExamples.
Import Sample.
Local Existing Instances blockApi dbApi fsApi txPoolApi addressApi config nearOne
  doubleArith serverApi.

(** C1, as stated, fails: two engines with the same validator set, seed
    block hash and round elect differently when the keys of the two
    validator objects were inserted in different orders. *)
Lemma selectProposer_depends_on_key_order :
  heavyBCA ≡ₚ heavyABC
  /\ (seedBlockOf (engineWith heavyBCA) ≫= fun b => Some (hash b))
     = (seedBlockOf (engineWith heavyABC) ≫= fun b => Some (hash b))
  /\ state_round (state (engineWith heavyBCA)) = state_round (state (engineWith heavyABC))
  /\ selectProposer (engineWith heavyBCA) = Returned None (engineWith heavyBCA)
  /\ selectProposer (engineWith heavyABC)
     = Returned (Some "A"%string) (engineWith heavyABC).
Proof.
  split_and!; try (vm_compute; reflexivity).
  unfold heavyBCA, heavyABC.
  change [("B"%string, 1); ("C"%string, 1); ("A"%string, 9007199254740992)]
    with ([("B"%string, 1); ("C"%string, 1)] ++ [("A"%string, 9007199254740992)]).
  apply Permutation_app_comm.
Qed.

(** C8, as stated, fails: three validators with positive integer stakes,
    a seed block and a sample below 1, and nobody is elected. *)
Lemma selectProposer_heavy_stakes_elect_nobody :
  getValidatorsAtNumber (engineWith heavyBCA) 2 = Some heavyBCA
  /\ Forall (fun entry : string * Z => 0 < snd entry) heavyBCA
  /\ is_Some (seedBlockOf (engineWith heavyBCA))
  /\ (0 <= seedrandom "deadbeef0" /\ seedrandom "deadbeef0" < 1)%Q
  /\ foldr Z.add 0 (snd <$> heavyBCA) = 2 ^ 53 + 2
  /\ totalAtStake heavyBCA = 2 ^ 53 + 2
  /\ (targetValueOf heavyBCA "deadbeef0" == inject_Z (2 ^ 53))%Q
  /\ selectProposer (engineWith heavyBCA) = Returned None (engineWith heavyBCA).
Proof.
  split_and!; try (vm_compute; reflexivity).
  - apply (bool_decide_unpack _). vm_compute. exact I.
  - eexists. vm_compute. reflexivity.
  - vm_compute. discriminate.
Qed.

End RoundingExamples.

(** Scenario S2 at a boundary: the sample is below one third, its product
    with 300 rounds to 100, and the election goes to [B]. *)
Section BoundaryExamples.
Import Sample.
Local Existing Instances belowThird doubleArith.

Lemma selectProposerWith_S2_boundary :
  (seedrandom "deadbeef0" < 1 # 3)%Q
  /\ (targetValueOf validatorsABC "deadbeef0" == inject_Z 100)%Q
  /\ selectProposerWith validatorsABC "deadbeef" 0 = Some "B"%string.
Proof. split_and!; vm_compute; reflexivity. Qed.

End BoundaryExamples.

(** Scenario S2: the validators [A], [B], [C] with 100 each, for any
    generator and any product. *)
Section ScenarioS2.
Context `{Prng, DoubleArith}.

Lemma sorted_ABC :
  alphabeticallyOrderedValidators Sample.validatorsABC = ["A"; "B"; "C"]%string.
Proof. vm_compute. reflexivity. Qed.

Lemma walk_ABC (t : Q) :
  walkValidators Sample.validatorsABC t 0 ["A"; "B"; "C"]%string =
  if exceeds 100 t then Some "A"%string
  else if exceeds 200 t then Some "B"%string
  else if exceeds 300 t then Some "C"%string
  else None.
Proof. reflexivity. Qed.

(** X4. The table of scenario S2, on the target: the total stake is 300,
    the target is the product of the sample and 300 as the runtime
    computes it, and the election goes to [A] for a target below 100, to
    [B] from 100 to below 200, to [C] from 200 to below 300, and to nobody
    from 300 on. *)
Lemma selectProposerWith_S2 (seedBlockHash : string) (round : Z) :
  let r := seedrandom (seedOf seedBlockHash round) in
  let targetValue := mulDouble r (inject_Z 300) in
  let elected := selectProposerWith Sample.validatorsABC seedBlockHash round in
  totalAtStake Sample.validatorsABC = 300
  /\ targetValueOf Sample.validatorsABC (seedOf seedBlockHash round) = targetValue
  /\ ((targetValue < inject_Z 100)%Q -> elected = Some "A"%string)
  /\ ((inject_Z 100 <= targetValue)%Q -> (targetValue < inject_Z 200)%Q ->
      elected = Some "B"%string)
  /\ ((inject_Z 200 <= targetValue)%Q -> (targetValue < inject_Z 300)%Q ->
      elected = Some "C"%string)
  /\ ((inject_Z 300 <= targetValue)%Q -> elected = None).
Proof.
  cbn zeta. unfold selectProposerWith, targetValueOf.
  rewrite sorted_ABC, walk_ABC.
  change (totalAtStake Sample.validatorsABC) with 300.
  set (t := mulDouble (seedrandom (seedOf seedBlockHash round)) (inject_Z 300)).
  pose proof (exceeds_true 100 t) as H100. pose proof (exceeds_false 100 t) as F100.
  pose proof (exceeds_true 200 t) as H200. pose proof (exceeds_false 200 t) as F200.
  pose proof (exceeds_true 300 t) as H300. pose proof (exceeds_false 300 t) as F300.
  assert (inject_Z 100 <= inject_Z 200)%Q as H12 by (rewrite <- Zle_Qle; lia).
  assert (inject_Z 200 <= inject_Z 300)%Q as H23 by (rewrite <- Zle_Qle; lia).
  split_and!; [reflexivity|reflexivity|..].
  - intros Hlt. by rewrite (proj2 H100 Hlt).
  - intros Hge Hlt. by rewrite (proj2 F100 Hge), (proj2 H200 Hlt).
  - intros Hge Hlt.
    rewrite (proj2 F100 (Qle_trans _ _ _ H12 Hge)), (proj2 F200 Hge).
    by rewrite (proj2 H300 Hlt).
  - intros Hge.
    rewrite (proj2 F100 (Qle_trans _ _ _ H12 (Qle_trans _ _ _ H23 Hge))).
    by rewrite (proj2 F200 (Qle_trans _ _ _ H23 Hge)), (proj2 F300 Hge).
Qed.

End ScenarioS2.
(** * More properties of the block store *)

Section BlockStoreMore.
Context `{BlockApi, DbApi, FsApi}.

(** X5. [isValidChainSubsection] accepts a section exactly when every block
    after the first names the hash of the parsed block before it and passes
    [validateHashes]; the first block is never validated, and a section of
    at most one block is always accepted. *)
Theorem isValidChainSubsection_iff (chainSubSection : list Block) :
  (isValidChainSubsection chainSubSection = true <->
   forall (i : nat) (prev block : Block),
     chainSubSection !! i = Some prev ->
     chainSubSection !! S i = Some block ->
     last_hash block = hash (parse prev) /\ validateHashes block = true)
  /\ ((length chainSubSection <= 1)%nat -> isValidChainSubsection chainSubSection = true).
Proof.
  split.
  - induction chainSubSection as [|p rest IH]; [by split|].
    destruct rest as [|b rest'].
    + split; [|done]. intros _ [|i] prev block Hp Hb; simplify_eq/=.
    + cbn [isValidChainSubsection].
      destruct (String.eqb_spec (last_hash b) (hash (parse p))) as [Hlink|Hlink];
        cbn [negb orb].
      * destruct (validateHashes b) eqn:Hv; cbn [negb].
        -- rewrite IH. split.
           ++ intros Hall [|i] prev block Hp Hb.
              ** simplify_eq/=. done.
              ** apply (Hall i); done.
           ++ intros Hall i prev block Hp Hb. apply (Hall (S i)); done.
        -- split; [discriminate|]. intros Hall.
           destruct (Hall 0%nat p b eq_refl eq_refl) as [_ Hv']. congruence.
      * split; [discriminate|]. intros Hall.
        destruct (Hall 0%nat p b eq_refl eq_refl) as [Hl _]. done.
  - destruct chainSubSection as [|p [|b rest]]; simpl; [done|done|lia].
Qed.

Lemma addNewBlock_false (bc bc' : Blockchain) (b : Block) :
  addNewBlock (Some b) bc = Returned false bc' ->
  bc' = bc /\ number b <> lastBlockNumber bc + 1.
Proof.
  unfold addNewBlock.
  destruct (Z.eqb_spec (number b) (lastBlockNumber bc + 1)) as [Heq|Hne]; cbn [negb].
  - destruct (shiftOldBlocks _ _) as [u [c d]|[c d]]; discriminate.
  - intros [= <-]. done.
Qed.

Lemma mergeBlocks_false (blocks : list Block) :
  forall bc bc' : Blockchain,
    mergeBlocks blocks bc = Returned false bc' ->
    exists (appended : list Block) (b : Block) (rest : list Block),
      blocks = appended ++ b :: rest
      /\ mergeBlocks appended bc = Returned true bc'
      /\ number b <> lastBlockNumber bc' + 1.
Proof.
  induction blocks as [|b rest IH]; intros bc bc' Hmerge; [discriminate|].
  cbn [mergeBlocks] in Hmerge.
  unfold mbind, M_bind in Hmerge.
  destruct (addNewBlock (Some b) bc) as [added bc1|bc1] eqn:Hadd; [|discriminate].
  destruct added.
  - destruct (IH _ _ Hmerge) as (appended & b' & rest' & -> & Happ & Hnum).
    exists (b :: appended), b', rest'. split_and!; [done| |done].
    cbn [mergeBlocks]. unfold mbind, M_bind. rewrite Hadd. exact Happ.
  - injection Hmerge as <-. apply addNewBlock_false in Hadd as [-> Hne].
    exists [], b, rest. done.
Qed.

(** X6. [merge] is not atomic. When it answers [false], either the chain and
    the snapshot db are as before, or the append loop stopped at the first
    block whose number did not follow: the blocks before it stay appended. *)
Theorem merge_false_partial (bc bc' : Blockchain) (chainSubSection : list Block)
    (Hmerge : merge chainSubSection bc = Returned false bc') :
  (chain bc' = chain bc /\ backupDb bc' = backupDb bc /\ disk bc' = disk bc)
  \/ exists (skipped appended : list Block) (b : Block) (rest : list Block),
       chainSubSection = skipped ++ appended ++ b :: rest
       /\ (length skipped <= 1)%nat
       /\ mergeBlocks appended bc = Returned true bc'
       /\ number b <> lastBlockNumber bc' + 1.
Proof.
  unfold merge in Hmerge.
  destruct (last chainSubSection) as [lastReceived|].
  2:{ left. injection Hmerge as <-. destruct (markSynced_spec bc) as (_ & ? & ? & ?).
      by destruct chainSubSection. }
  destruct chainSubSection as [|first others].
  { left. injection Hmerge as <-. by destruct (markSynced_spec bc) as (_ & ? & ? & ?). }
  destruct (number lastReceived <? lastBlockNumber bc).
  { left. by injection Hmerge as <-. }
  destruct (number lastReceived =? lastBlockNumber bc).
  { left. injection Hmerge as <-. by destruct (markSynced_spec bc) as (_ & ? & ? & ?). }
  cbn zeta in Hmerge.
  destruct (truthyString _ && _). { left. by injection Hmerge as <-. }
  destruct (negb (truthyString _) && _). { left. by injection Hmerge as <-. }
  destruct (negb (isValidChainSubsection _)). { left. by injection Hmerge as <-. }
  right. destruct (truthyString _).
  - apply mergeBlocks_false in Hmerge as (appended & b & rest & -> & Happ & Hnum).
    exists [first], appended, b, rest. split_and!; done.
  - apply mergeBlocks_false in Hmerge as (appended & b & rest & Heq & Happ & Hnum).
    exists [], appended, b, rest. split_and!; simpl; [done|lia|done|done].
Qed.

Lemma mergeBlocks_true_last (blocks : list Block) :
  forall bc bc' : Blockchain,
    mergeBlocks blocks bc = Returned true bc' ->
    syncedAfterStartup bc' = syncedAfterStartup bc
    /\ match last blocks with
       | Some b => lastBlock bc' = Some (asBlock b)
       | None => bc' = bc
       end.
Proof.
  induction blocks as [|b rest IH]; intros bc bc' Hmerge.
  - by injection Hmerge as <-.
  - cbn [mergeBlocks] in Hmerge.
    apply bind_returned in Hmerge as (added & bc1 & Hadd & Hrest).
    destruct added; [|discriminate].
    destruct (addNewBlock_true_last _ _ _ Hadd) as (b' & [= <-] & _ & _ & Hlast).
    apply addNewBlock_true in Hadd as (? & ? & _ & _ & _ & _ & _ & _ & Hsync).
    destruct (IH _ _ Hrest) as [Hsync' Hl]. split; [congruence|].
    rewrite last_cons. destruct (last rest); [exact Hl|]. by subst bc'.
Qed.

(** X7. A successful [merge] leaves [syncedAfterStartup] as it was and ends
    on the last received block: the local last block is that block (parsed
    when it is no [Block] instance). The one exception is a section of a
    single block that carries the hash of the local last block and a higher
    number: [merge] answers [true] and appends nothing. *)
Theorem merge_true_last (bc bc' : Blockchain) (chainSubSection : list Block)
    (lastReceived : Block)
    (Hlast : last chainSubSection = Some lastReceived)
    (Hmerge : merge chainSubSection bc = Returned true bc') :
  syncedAfterStartup bc' = syncedAfterStartup bc
  /\ lastBlockNumber bc < number lastReceived
  /\ (lastBlock bc' = Some (asBlock lastReceived)
      \/ (chainSubSection = [lastReceived] /\ bc' = bc
          /\ (hash <$> lastBlock bc) = Some (hash (parse lastReceived)))).
Proof.
  unfold merge in Hmerge. rewrite Hlast in Hmerge.
  destruct chainSubSection as [|first others]; [discriminate|].
  destruct (Z.ltb_spec (number lastReceived) (lastBlockNumber bc)); [discriminate|].
  destruct (Z.eqb_spec (number lastReceived) (lastBlockNumber bc)); [discriminate|].
  cbn zeta in Hmerge.
  destruct (truthyString _) eqn:Htruthy; cbn [negb andb] in Hmerge.
  - destruct (bool_decide _) eqn:Hfirst; cbn [negb] in Hmerge; [|discriminate].
    apply bool_decide_eq_true_1 in Hfirst.
    destruct (negb (isValidChainSubsection _)); [discriminate|].
    apply mergeBlocks_true_last in Hmerge as [Hsync Hl].
    split_and!; [done|lia|].
    destruct others as [|o others'].
    + right. simpl in Hlast. injection Hlast as <-. split_and!; [done|done|].
      destruct (0 <=? lastBlockNumber bc); [exact Hfirst|discriminate].
    + left. rewrite last_cons in Hlast.
      destruct (last (o :: others')) eqn:Hothers; [|by apply last_None in Hothers].
      by injection Hlast as <-.
  - destruct (negb (String.eqb _ _)); [discriminate|].
    destruct (negb (isValidChainSubsection _)); [discriminate|].
    apply mergeBlocks_true_last in Hmerge as [Hsync Hl].
    rewrite Hlast in Hl. split_and!; [done|lia|by left].
Qed.

(** X8. What [init] leaves in memory: the chain it found there, the genesis
    block alone, or a chain loaded from the directory whose first block
    parses to the genesis hash and valid hashes and whose adjacent blocks
    pass [isValidChainSubsection]. The snapshot db and the sync flag are not
    touched. *)
Theorem init_chain (isFirstNode : bool) (bc bc' : Blockchain)
    (Hinit : init isFirstNode bc = Returned tt bc') :
  backupDb bc' = backupDb bc
  /\ syncedAfterStartup bc' = syncedAfterStartup bc
  /\ (chain bc' = chain bc
      \/ chain bc' = [genesis]
      \/ exists (first : Block) (rest : list Block),
           chain bc' = first :: rest
           /\ hash (parse first) = hash genesis
           /\ validateHashes (parse first) = true
           /\ isValidChainSubsection (first :: rest) = true).
Proof.
  unfold init in Hinit.
  destruct (createBlockchainDir bc) as [created bc1] eqn:Hdir.
  assert (chain bc1 = chain bc /\ backupDb bc1 = backupDb bc
          /\ syncedAfterStartup bc1 = syncedAfterStartup bc) as (Hc & Hb & Hs).
  { unfold createBlockchainDir in Hdir.
    destruct (foldl _ _ _) as [cr d]. by injection Hdir as _ <-. }
  destruct created.
  - destruct isFirstNode; injection Hinit as <-; cbn; auto.
  - unfold loadChain in Hinit.
    destruct (isValidChain _) as [[|]|] eqn:Hvalid; [| |discriminate];
      injection Hinit as <-; cbn; split_and!; auto.
    right. right. unfold isValidChain in Hvalid.
    destruct (map _ _) as [|first rest]; [discriminate|].
    destruct (String.eqb_spec (hash (parse first)) (hash genesis));
      cbn [negb] in Hvalid; [|discriminate].
    destruct (validateHashes (parse first)) eqn:Hv; cbn [negb] in Hvalid;
      [|discriminate].
    injection Hvalid as Hsub. exists first, rest. done.
Qed.

(** X9. [writeChain] writes a block file only where none exists: when the
    file of every in-memory block exists, the store is left as it is. *)
Theorem writeChain_existing (bc : Blockchain)
    (Hfiles : Forall (fun block => existsSync (disk bc) (pathToBlock bc block) = true)
                     (chain bc)) :
  writeChain bc = bc.
Proof.
  unfold writeChain.
  assert (forall blocks d,
             Forall (fun block => existsSync d (pathToBlock bc block) = true) blocks ->
             foldl (fun d block =>
                      if existsSync d (pathToBlock bc block) then d
                      else saveBlock (pathToBlock bc block) block d) d blocks = d)
    as Hfold.
  { induction blocks as [|b rest IH]; intros d Hall; [done|].
    apply Forall_cons in Hall as [Hb Hrest]. cbn [foldl]. rewrite Hb. by apply IH. }
  rewrite Hfold by done. by destruct bc.
Qed.

End BlockStoreMore.

(** * Reading blocks from the directory *)

Section BlockStoreQueriesFacts.
Context `{BlockApi, DbApi, FsApi, !HashGlobApi}.

(** X10. Reading by number, by section and by hash. For a number that is
    not negative, [getBlockByNumber] answers the last block of the section
    from that number to the next, and [null] exactly when that section is
    empty. A bound of [getChainSection] that is no integer or is negative
    stands for the start of the chain or, for the upper bound, for the
    number after the last block in memory. [getBlockByHash] answers [null]
    for a [null] or empty hash and when no file name matches, and else the
    block of the last match. *)
Theorem getChainSection_getBlockByNumber (bc : Blockchain) (n : Z) (Hn : 0 <= n) :
  getBlockByNumber bc n = last (getChainSection bc (Some n) (Some (n + 1)))
  /\ (getBlockByNumber bc n = None <-> getChainSection bc (Some n) (Some (n + 1)) = [])
  /\ (forall from to : Z, from < 0 -> to < 0 ->
        getChainSection bc (Some from) (Some to) = getChainSection bc None None)
  /\ getChainSection bc None None
     = getChainSection bc (Some 0) (Some (lastBlockNumber bc + 1))
  /\ getBlockByHash bc None = None
  /\ getBlockByHash bc (Some ""%string) = None
  /\ (forall hash : string,
        hash <> ""%string ->
        getBlockByHash bc (Some hash)
        = loadBlock (disk bc)
            <$> last (globBlockFilesByHash (disk bc) (_blockchainDir bc) hash)).
Proof.
  unfold getBlockByNumber, getChainSection.
  destruct (Z.ltb_spec n 0) as [|_]; [lia|].
  destruct (Z.ltb_spec (n + 1) 0) as [|_]; [lia|].
  change (map (loadBlock (disk bc)) ?l) with (loadBlock (disk bc) <$> l).
  split_and!.
  - rewrite fmap_last. by destruct (last _).
  - destruct (getBlockFiles bc n (n + 1)) as [|f fs] eqn:Hfiles; [done|].
    split; [|done]. intros Hnone. exfalso.
    destruct (last (f :: fs)) eqn:Hlast; [done|]. by apply last_None in Hlast.
  - intros from to Hfrom Hto.
    destruct (Z.ltb_spec from 0); [|lia]. destruct (Z.ltb_spec to 0); [|lia]. done.
  - cbn [Z.ltb Z.compare].
    by destruct (Z.ltb_spec (lastBlockNumber bc + 1) 0).
  - done.
  - done.
  - intros hash Hhash. unfold getBlockByHash.
    destruct (String.eqb_spec hash ""); [done|]. by destruct (last _).
Qed.

End BlockStoreQueriesFacts.

(** * More properties of the node *)

Section NodeMore.
Context `{BlockApi, DbApi, FsApi, TxPoolApi, AddressApi}.


Lemma init_backupDb (isFirstNode : bool) (b : Blockchain) :
  backupDb (stateOf (init isFirstNode b)) = backupDb b.
Proof.
  unfold init.
  destruct (createBlockchainDir b) as [created b1] eqn:Hdir.
  assert (backupDb b1 = backupDb b) as Hb.
  { unfold createBlockchainDir in Hdir.
    destruct (foldl _ _ _) as [cr d]. by injection Hdir as _ <-. }
  destruct created.
  - by destruct isFirstNode.
  - unfold loadChain. by destruct (isValidChain _) as [[|]|].
Qed.



(** X12. [Node.init] is one-shot. With a snapshot db already bound it
    throws (at [setBackupDb], or before it in [bc.init]) and the nonce
    counter, the live db and the [initialized] flag are as before; after a
    [Node.init] that returned, the snapshot db is bound to the fresh db,
    the node is [initialized], and every further [Node.init] throws. *)
Theorem Node_init_once (isFirstNode : bool) (n : Node) :
  (backupDb (bc n) <> None ->
   exists s : Node,
     Node_init isFirstNode n = Thrown s
     /\ nonce s = nonce n /\ db s = db n /\ initialized s = initialized n)
  /\ (forall n' : Node,
        Node_init isFirstNode n = Returned tt n' ->
        initialized n' = true
        /\ backupDb (bc n') = Some newDB
        /\ forall again : bool, valueOf (Node_init again n') = None).
Proof.
  assert (forall (b : bool) (m : Node),
             backupDb (bc m) <> None ->
             exists s : Node,
               Node_init b m = Thrown s
               /\ nonce s = nonce m /\ db s = db m /\ initialized s = initialized m)
    as Hbound.
  { intros b m Hset. unfold Node_init, onBc, mbind, M_bind.
    pose proof (init_backupDb b (bc m)) as Hkeep.
    destruct (init b (bc m)) as [[] stored|stored]; cbn [stateOf] in Hkeep.
    - cbn [bc set_bc]. unfold setBackupDb. rewrite Hkeep.
      destruct (backupDb (bc m)); [|done]. eexists. done.
    - eexists. done. }
  split; [apply Hbound|].
  intros n' Hrun.
  assert (initialized n' = true /\ backupDb (bc n') = Some newDB) as [Hini Hdb].
  { unfold Node_init, onBc, mbind, M_bind in Hrun.
    destruct (init isFirstNode (bc n)) as [[] stored|stored]; [|discriminate].
    cbn [bc set_bc] in Hrun. unfold setBackupDb in Hrun.
    destruct (backupDb stored); [discriminate|].
    unfold modify in Hrun. injection Hrun as <-.
    match goal with
    | |- context [reconstruct ?m] =>
        destruct (reconstruct_spec m) as (Hbc & _ & _ & _ & _ & _)
    end.
    cbn [initialized set_initialized bc]. rewrite Hbc. done. }
  split_and!; [done|done|].
  intros again. destruct (Hbound again n') as (s & -> & _); [congruence|done].
Qed.

End NodeMore.

(** * Properties of transaction creation *)

Section NodeTransactionsFacts.
Context `{BlockApi, DbApi, FsApi, TxPoolApi, AddressApi, TransactionApi}.


Lemma markCustomAddress_again (d : TxData) :
  markCustomAddress (markCustomAddress d) = markCustomAddress d.
Proof. unfold markCustomAddress. by destruct (td_address d) eqn:Ha; cbn; rewrite ?Ha. Qed.

(** The object that [createSingleTransaction] leaves behind carries a
    nonce, and filling it again changes neither it nor the counter. *)
Lemma fillTxData_again (d : TxData) (flag flag' : bool) (n m : Node) :
  fillTxData (fst (fillTxData d flag n)) flag' m = (fst (fillTxData d flag n), m).
Proof.
  unfold fillTxData, markCustomAddress, set_td_nonce, set_td_skip_verif.
  destruct (td_address d) eqn:Ha, (td_nonce d) eqn:Hn, flag;
    cbn; rewrite ?Ha, ?Hn; cbn; rewrite ?Ha; done.
Qed.

Lemma fillTxData_node (d : TxData) (flag : bool) (n : Node) :
  let n' := snd (fillTxData d flag n) in
  bc n' = bc n /\ tp n' = tp n /\ db n' = db n
  /\ initialized n' = initialized n /\ account n' = account n
  /\ default 0 (nonce n) <= default 0 (nonce n')
  /\ (flag = false -> n' = n).
Proof.
  cbn zeta. unfold fillTxData. cbn zeta.
  destruct (td_nonce (markCustomAddress d)); [cbn; split_and!; auto; lia|].
  destruct flag; cbn; split_and!; auto; try lia; done.
Qed.

Lemma fillTxData_fields (d : TxData) (flag : bool) (n : Node) :
  let d' := fst (fillTxData d flag n) in
  td_operation d' = td_operation d /\ td_address d' = td_address d
  /\ td_tx_list d' = td_tx_list d.
Proof.
  cbn zeta. unfold fillTxData, markCustomAddress, set_td_nonce, set_td_skip_verif.
  destruct (td_address d) eqn:Ha, (td_nonce d) eqn:Hn, flag;
    cbn; rewrite ?Ha, ?Hn; cbn; rewrite ?Ha; done.
Qed.

Lemma onlyNonces_refl (s : Objects * Node) : onlyNonces s s.
Proof. unfold onlyNonces. split_and!; auto; lia. Qed.

Lemma onlyNonces_trans (s1 s2 s3 : Objects * Node) :
  onlyNonces s1 s2 -> onlyNonces s2 s3 -> onlyNonces s1 s3.
Proof.
  intros (? & ? & ? & ? & ? & ? & H12) (? & ? & ? & ? & ? & ? & H23).
  unfold onlyNonces. split_and!; try congruence; try lia.
  intros r. destruct (H12 r) as (? & ? & ?), (H23 r) as (? & ? & ?).
  split_and!; congruence.
Qed.

Lemma createSingleTransaction_onlyNonces (ref : nat) (flag : bool)
    (s : Objects * Node) :
  onlyNonces s (stateOf (createSingleTransaction ref flag s))
  /\ (flag = false -> snd (stateOf (createSingleTransaction ref flag s)) = snd s).
Proof.
  destruct s as [objects n]. unfold createSingleTransaction.
  destruct (objects !! ref) as [d|] eqn:Hd; [|split; [apply onlyNonces_refl|done]].
  pose proof (fillTxData_node d flag n) as Hn.
  pose proof (fillTxData_fields d flag n) as Hf. cbn zeta in Hn, Hf.
  destruct (fillTxData d flag n) as [d' n']. cbn [fst snd stateOf] in *.
  destruct Hn as (? & ? & ? & ? & ? & ? & Hflag), Hf as (? & ? & ?).
  split; [|exact Hflag].
  unfold onlyNonces. cbn [fst snd]. split_and!; try done.
  intros r. destruct (decide (r = ref)) as [->|Hne].
  - rewrite lookup_insert_eq, Hd. cbn. split_and!; congruence.
  - by rewrite lookup_insert_ne.
Qed.

Lemma createEach_onlyNonces (tx_list : list nat) (flag : bool) :
  forall s : Objects * Node,
    onlyNonces s (stateOf (createEach tx_list flag s))
    /\ (flag = false -> snd (stateOf (createEach tx_list flag s)) = snd s).
Proof.
  induction tx_list as [|r rest IH]; intros s.
  - split; [apply onlyNonces_refl|done].
  - cbn [createEach]. unfold mbind, M_bind.
    destruct (createSingleTransaction_onlyNonces r flag s) as [Hone Hflag1].
    destruct (createSingleTransaction r flag s) as [tx s1|s1]; cbn [stateOf] in *;
      [|done].
    destruct (IH s1) as [Hrest Hflag2].
    destruct (createEach rest flag s1) as [txs s2|s2];
      cbn [stateOf mret M_ret] in *;
      (split; [by eapply onlyNonces_trans|]); intros Hf;
      by rewrite (Hflag2 Hf), (Hflag1 Hf).
Qed.

Lemma createTransaction_onlyNonces (ref : nat) (flag : bool) (s : Objects * Node) :
  onlyNonces s (stateOf (createTransaction ref flag s))
  /\ (flag = false -> snd (stateOf (createTransaction ref flag s)) = snd s).
Proof.
  unfold createTransaction.
  destruct (fst s !! ref) as [d|]; [|split; [apply onlyNonces_refl|done]].
  destruct (isBatchTransaction d).
  - destruct (td_tx_list d) as [l|]; [|split; [apply onlyNonces_refl|done]].
    unfold mbind, M_bind. pose proof (createEach_onlyNonces l flag s) as Hl.
    by destruct (createEach l flag s).
  - unfold mbind, M_bind.
    pose proof (createSingleTransaction_onlyNonces ref flag s) as Hl.
    by destruct (createSingleTransaction ref flag s).
Qed.



(** X14. An object is numbered once. After [createSingleTransaction] has
    returned for an object, a further call on the same object, nonced or
    not, returns the same transaction and changes neither the object nor
    the counter; so a [tx_list] that holds the same object twice yields the
    same transaction twice, with one nonce, and advances the counter once.
    *)
Theorem createSingleTransaction_again (ref : nat) (flag flag' : bool)
    (s s' : Objects * Node) (tx : Transaction)
    (Hfirst : createSingleTransaction ref flag s = Returned tx s') :
  createSingleTransaction ref flag' s' = Returned tx s'
  /\ createEach [ref; ref] flag s = Returned [tx; tx] s'.
Proof.
  assert (forall f : bool, createSingleTransaction ref f s' = Returned tx s') as Hagain.
  { intros f. destruct s as [objects n].
    unfold createSingleTransaction in Hfirst.
    destruct (objects !! ref) as [d|]; [|discriminate].
    pose proof (fillTxData_again d flag f n) as Hfill.
    pose proof (fillTxData_node d flag n) as Hnode. cbn zeta in Hnode.
    destruct (fillTxData d flag n) as [d' n']. cbn [fst snd] in *.
    injection Hfirst as <- <-.
    unfold createSingleTransaction. rewrite lookup_insert_eq, (Hfill n').
    by rewrite insert_insert_eq. }
  split; [apply Hagain|].
  cbn [createEach]. unfold mbind, M_bind. by rewrite Hfirst, (Hagain flag).
Qed.

(** X15. What [createTransaction] leaves alone. Whatever the object and
    the flag, and whether the call returns or throws, it changes nothing in
    the node but the nonce counter, which never goes down, and nothing in
    the objects but nonces and [skip_verif] marks; a call that is not
    nonced leaves the whole node as it was; a batch without a [tx_list]
    throws before anything is written. *)
Theorem createTransaction_frame (ref : nat) (isNoncedTransaction : bool)
    (objects : Objects) (n : Node) :
  let s' := stateOf (createTransaction ref isNoncedTransaction (objects, n)) in
  onlyNonces (objects, n) s'
  /\ (isNoncedTransaction = false -> snd s' = n)
  /\ (forall txData : TxData,
        objects !! ref = Some txData ->
        isBatchTransaction txData = true -> td_tx_list txData = None ->
        createTransaction ref isNoncedTransaction (objects, n) = Thrown (objects, n)).
Proof.
  cbn zeta.
  destruct (createTransaction_onlyNonces ref isNoncedTransaction (objects, n))
    as [Honly Hflag].
  split_and!; [exact Honly|exact Hflag|].
  intros txData Hobject Hbatch Hlist. unfold createTransaction. cbn [fst].
  by rewrite Hobject, Hbatch, Hlist.
Qed.

End NodeTransactionsFacts.

(** * More properties of the election *)

Section ElectionMore.
Context `{Prng, DoubleArith}.
Implicit Types (validators : list (string * Z)) (addrs : list string).

Lemma cumulativeStake_take_le validators addrs
    (Hnonneg : forall (a : string) (s : Z), (a, s) ∈ validators -> 0 <= s) :
  forall i j : nat,
    (i <= j)%nat ->
    cumulativeStake validators (take i addrs)
    <= cumulativeStake validators (take j addrs).
Proof.
  pose proof (fun a => stakeOf_nonneg validators a Hnonneg) as Hstake.
  pose proof (fun l => cumulativeStake_nonneg validators l Hnonneg) as Hcum.
  induction addrs as [|a rest IH]; intros i j Hij.
  - by rewrite !take_nil.
  - destruct i as [|i]; [simpl; apply Hcum|].
    destruct j as [|j]; [lia|].
    cbn [take cumulativeStake]. specialize (IH i j ltac:(lia)). lia.
Qed.

(** X16. The election as an interval test. For stakes that are not
    negative and add up to [2 ^ 53] at most, and a target that is not
    negative, [selectProposer] elects the address at position [i] of the
    ascending key list exactly when the target lies in the half-open
    interval from the stake accumulated before [i] to the stake
    accumulated up to and including [i]; it elects nobody exactly when the
    target is at least the total stake; an address whose stake is 0 is
    never elected. *)
Theorem selectProposerWith_interval validators (seedBlockHash : string) (round : Z)
    (Hkeys : NoDup (fst <$> validators))
    (Hexact : exactStakes validators)
    (Htarget : (0 <= targetValueOf validators (seedOf seedBlockHash round))%Q) :
  let sorted := alphabeticallyOrderedValidators validators in
  let targetValue := targetValueOf validators (seedOf seedBlockHash round) in
  (forall a : string,
      selectProposerWith validators seedBlockHash round = Some a <->
      exists i : nat,
        sorted !! i = Some a
        /\ (inject_Z (cumulativeStake validators (take i sorted)) <= targetValue)%Q
        /\ (targetValue < inject_Z (cumulativeStake validators (take (S i) sorted)))%Q)
  /\ (selectProposerWith validators seedBlockHash round = None <->
      (inject_Z (totalAtStake validators) <= targetValue)%Q)
  /\ (forall a : string,
        selectProposerWith validators seedBlockHash round = Some a ->
        0 < stakeOf validators a).
Proof.
  intros sorted t.
  pose proof Hexact as [Hnonneg Hbound].
  pose proof (totalAtStake_sorted validators Hkeys Hexact) as Htotal.
  fold sorted in Htotal.
  assert (0 + cumulativeStake validators sorted <= 2 ^ 53) as Hcum.
  { rewrite Z.add_0_l, <- Htotal, totalAtStake_exact by done. exact Hbound. }
  assert (forall a : string,
             selectProposerWith validators seedBlockHash round = Some a <->
             exists i : nat,
               sorted !! i = Some a
               /\ (inject_Z (cumulativeStake validators (take i sorted)) <= t)%Q
               /\ (t < inject_Z (cumulativeStake validators (take (S i) sorted)))%Q)
    as Hiff.
  { intros a. unfold selectProposerWith. cbn zeta. fold sorted. fold t.
    rewrite (walkValidators_first _ _ _ Hnonneg) by (done || lia). split.
    - intros (i & Hi & Hat & Hbefore). exists i. split_and!; [done| |].
      + destruct i as [|i]; [exact Htarget|].
        specialize (Hbefore i ltac:(lia)).
        rewrite Z.add_0_l in Hbefore. by apply exceeds_false.
      + rewrite Z.add_0_l in Hat. by apply exceeds_true.
    - intros (i & Hi & Hlow & Hhigh). exists i. split_and!; [done| |].
      + rewrite Z.add_0_l. by apply exceeds_true.
      + intros j Hj. rewrite Z.add_0_l. apply exceeds_false.
        eapply Qle_trans; [|exact Hlow].
        rewrite <- Zle_Qle. apply cumulativeStake_take_le; [done|lia]. }
  split_and!; [exact Hiff| |].
  - split.
    + intros Hnone.
      destruct (Qlt_le_dec t (inject_Z (totalAtStake validators))) as [Hlt|Hle];
        [|exact Hle].
      destruct (walkValidators_finds validators t sorted Hnonneg 0) as (a & Ha & _);
        [lia|exact Hcum| | |].
      * intros Hnil. rewrite Htotal, Hnil in Hlt. simpl in Hlt.
        exact (Qlt_not_le _ _ Hlt Htarget).
      * rewrite Z.add_0_l. apply exceeds_true. by rewrite Htotal in Hlt.
      * unfold selectProposerWith in Hnone. cbn zeta in Hnone.
        fold sorted in Hnone. fold t in Hnone. congruence.
    + intros Hle.
      destruct (selectProposerWith validators seedBlockHash round) as [a|] eqn:Hsel;
        [|done].
      destruct (proj1 (Hiff a) eq_refl) as (i & Hi & _ & Hhigh).
      exfalso. apply (Qlt_not_le _ _ Hhigh). eapply Qle_trans; [|exact Hle].
      rewrite <- Zle_Qle, Htotal.
      rewrite <- (firstn_all sorted) at 2.
      apply cumulativeStake_take_le; [done|].
      apply lookup_lt_Some in Hi. lia.
  - intros a (i & Hi & Hlow & Hhigh)%Hiff.
    pose proof (Qle_lt_trans _ _ _ Hlow Hhigh) as Hlt.
    rewrite <- Zlt_Qlt in Hlt.
    rewrite (take_S_r _ _ _ Hi), cumulativeStake_app in Hlt.
    cbn [cumulativeStake] in Hlt. lia.
Qed.

End ElectionMore.
(** * More properties of the engine *)

Section EngineMore.
Context `{BlockApi, DbApi, FsApi, TxPoolApi, AddressApi, Config, Prng, DoubleArith,
          !ServerApi}.


(** [selectProposer] reads the engine and changes nothing. *)
Lemma selectProposer_state (c : Consensus) : stateOf (selectProposer c) = c.
Proof.
  unfold selectProposer.
  destruct (getValidatorsAtNumber _ _); [|done].
  destruct (bool_decide _); [done|]. by destruct (seedBlockOf c).
Qed.




(** X18. What [handleConsensusMessage] drops, and where it can throw. A
    message is dropped with the engine unchanged when the engine is not
    RUNNING, when the type is not PROPOSE or when it carries no block. The
    call throws only from [commit], that is for a block of the current
    height that passed [checkProposal]; the broadcast is then not made. *)
Theorem handleConsensusMessage_drops (c : Consensus) (msg : ConsensusMessage) :
  ((status c <> RUNNING \/ msg_type msg <> PROPOSE \/ msg_value msg = None) ->
   handleConsensusMessage msg c = Returned tt c)
  /\ (forall s : Consensus,
        handleConsensusMessage msg c = Thrown s ->
        status c = RUNNING /\ msg_type msg = PROPOSE
        /\ exists value : Block,
             msg_value msg = Some value
             /\ number value = state_number (state c)
             /\ checkProposal value c = true
             /\ commit value c = Thrown s).
Proof.
  unfold handleConsensusMessage. split.
  - intros [Hs|[Ht|Hv]].
    + by destruct (status c).
    + destruct (status c); try done. by destruct (msg_type msg).
    + rewrite Hv. destruct (status c); try done. by destruct (msg_type msg).
  - intros s Hthrown.
    destruct (status c); try discriminate.
    destruct (msg_type msg); try discriminate.
    destruct (msg_value msg) as [value|]; try discriminate.
    destruct (Z.eqb_spec (number value) (state_number (state c))) as [Heq|Hne];
      cbn [negb] in Hthrown.
    2:{ by destruct (_ <? _). }
    destruct (checkProposal value c) eqn:Hcheck; [|discriminate].
    split_and!; [done|done|]. exists value. split_and!; [done|done|done|].
    unfold mbind, M_bind, modify in Hthrown.
    destruct (commit value c) as [[] c1|c1]; [discriminate|done].
Qed.

(** X19. The election at height 1, where the validator set is the local
    account with [STAKE]. For a generator whose samples lie in [0, 1):
    with a positive [STAKE] the local address is elected, whatever the
    round; with no positive [STAKE] nobody is elected; and the call throws
    exactly when [STAKE] is positive and the store holds no seed block. *)
Theorem selectProposer_bootstrap (c : Consensus)
    (Hheight : state_number (state c) = 1)
    (Hsample : forall seed : string, (0 <= seedrandom seed /\ seedrandom seed < 1)%Q)
    (Hproduct :
       forall seed : string,
         let total := totalAtStake [(acc_address (account (node c)), STAKE)] in
         (seedrandom seed < 1 -> 0 < inject_Z total ->
          mulDouble (seedrandom seed) (inject_Z total) < inject_Z total)%Q) :
  (0 < STAKE -> seedBlockOf c <> None ->
   selectProposer c = Returned (Some (acc_address (account (node c)))) c)
  /\ (STAKE <= 0 -> selectProposer c = Returned None c)
  /\ (valueOf (selectProposer c) = None <-> 0 < STAKE /\ seedBlockOf c = None).
Proof.
  unfold selectProposer, getValidatorsAtNumber. rewrite Hheight. cbn [Z.eqb Pos.eqb].
  destruct (Z.ltb_spec 0 STAKE) as [Hpos|Hneg].
  - rewrite bool_decide_eq_false_2 by done.
    split_and!; [|lia|].
    + intros _ Hseed. destruct (seedBlockOf c) as [seedBlock|]; [|done].
      f_equal. unfold selectProposerWith, targetValueOf. cbn zeta.
      specialize (Hproduct (seedOf (hash seedBlock) (state_round (state c)))).
      cbn zeta in Hproduct.
      unfold alphabeticallyOrderedValidators.
      change (merge_sort String.le (fst <$> [(acc_address (account (node c)), STAKE)]))
        with [acc_address (account (node c))].
      unfold totalAtStake in *.
      cbn [fmap list_fmap snd foldl walkValidators stakeOf] in *.
      rewrite String.eqb_refl.
      assert (0 < addNumber 0 STAKE) as Htotal
        by (apply roundInteger_positive; lia).
      assert (exceeds (addNumber 0 STAKE)
                (mulDouble (seedrandom (seedOf (hash seedBlock) (state_round (state c))))
                           (inject_Z (addNumber 0 STAKE))) = true) as ->; [|done].
      apply exceeds_true, Hproduct; [apply Hsample|].
      by rewrite <- (Zlt_Qlt 0).
    + destruct (seedBlockOf c); cbn [valueOf]; split; try done; intros [_ ?]; done.
  - rewrite bool_decide_eq_true_2 by done.
    split_and!; [lia|done|]. cbn [valueOf]. split; [done|lia].
Qed.

End EngineMore.

(** * The timers of the engine *)

Section TimerFacts.
Context `{BlockApi, DbApi, FsApi, TxPoolApi, AddressApi, Config, Prng, DoubleArith,
          !ServerApi, TransactionApi, !ProposalApi}.

Lemma keeps_bind {A B} (m : M Consensus A) (f : A -> M Consensus B) :
  keeps m -> (forall a, keeps (f a)) -> keeps (m ≫= f).
Proof.
  intros Hm Hf c Hc. specialize (Hm c Hc). unfold mbind, M_bind.
  destruct (m c) as [a s|s]; [|exact Hm]. by apply Hf.
Qed.

Lemma tracked_bind {A B} (m : M Consensus A) (f : A -> M Consensus B) (c : Consensus) :
  timersTracked (stateOf (m c)) -> (forall a, keeps (f a)) ->
  timersTracked (stateOf ((m ≫= f) c)).
Proof.
  intros Hm Hf. unfold mbind, M_bind.
  destruct (m c) as [a s|s]; [|exact Hm]. by apply Hf.
Qed.

Lemma keeps_ret {A} (a : A) : keeps (mret a).
Proof. by intros c Hc. Qed.

Lemma timersTracked_frame (c c' : Consensus) :
  timers c' = timers c -> nextTimerId c' = nextTimerId c ->
  timeoutId c' = timeoutId c -> timeoutInfo c' = timeoutInfo c ->
  timersTracked c -> timersTracked c'.
Proof.
  unfold timersTracked. intros -> -> -> ->. done.
Qed.

Lemma timersTracked_remove (c : Consensus) (id : nat) :
  timersTracked c -> timersTracked (clearTimeout id c).
Proof.
  intros (Hnodup & Hfresh & Htimeout). unfold timersTracked, clearTimeout.
  cbn [timers nextTimerId timeoutInfo timeoutId set_timers]. split_and!.
  - eapply sublist_NoDup; [exact Hnodup|apply fmap_sublist, sublist_filter].
  - intros t [_ Ht]%list_elem_of_filter. by apply Hfresh.
  - intros t [_ Ht]%list_elem_of_filter. by apply Htimeout.
Qed.

Lemma timersTracked_arm (c : Consensus) (callback : Callback) (durationMs : Z) :
  timersTracked c ->
  (isTimeoutTimer (mkTimer (nextTimerId c) callback durationMs) = true ->
   forall t, t ∈ timers c -> isTimeoutTimer t = false) ->
  forall info : option TimeoutInfo,
    (isTimeoutTimer (mkTimer (nextTimerId c) callback durationMs) = true ->
     info <> None) ->
    timersTracked
      (set_timeout
         (if isTimeoutTimer (mkTimer (nextTimerId c) callback durationMs)
          then Some (nextTimerId c) else timeoutId c)
         (if isTimeoutTimer (mkTimer (nextTimerId c) callback durationMs)
          then info else timeoutInfo c)
         (snd (setTimeout callback durationMs c))).
Proof.
  intros (Hnodup & Hfresh & Htimeout) Hnone info Hinfo.
  unfold timersTracked, setTimeout.
  cbn [timers nextTimerId timeoutInfo timeoutId set_timers set_timeout snd].
  split_and!.
  - rewrite fmap_app. apply NoDup_app. split_and!; [done| |apply NoDup_singleton].
    intros id (t & -> & Ht)%list_elem_of_fmap [=]%list_elem_of_singleton.
    specialize (Hfresh t Ht). cbn in *. lia.
  - intros t [Ht| ->%list_elem_of_singleton]%elem_of_app; [|cbn; lia].
    specialize (Hfresh t Ht). lia.
  - intros t [Ht| ->%list_elem_of_singleton]%elem_of_app Hkind.
    + destruct (isTimeoutTimer (mkTimer _ _ _)) eqn:Hnew.
      * rewrite (Hnone eq_refl t Ht) in Hkind. done.
      * by apply Htimeout.
    + rewrite Hkind. split; [by apply Hinfo|done].
Qed.

Lemma keeps_scheduleTimeout (newTimeoutInfo : TimeoutInfo) (durationMs : Z) :
  keeps (scheduleTimeout newTimeoutInfo durationMs).
Proof.
  intros c Hc. unfold scheduleTimeout.
  assert (forall c0 : Consensus,
             timersTracked c0 ->
             (forall t, t ∈ timers c0 -> isTimeoutTimer t = false) ->
             timersTracked
               (set_timeout (Some (nextTimerId c0)) (Some newTimeoutInfo)
                  (snd (setTimeout (CallHandleTimeout newTimeoutInfo) durationMs c0))))
    as Hinstall.
  { intros c0 Hc0 Hnone.
    exact (timersTracked_arm c0 (CallHandleTimeout newTimeoutInfo) durationMs Hc0
             (fun _ => Hnone) (Some newTimeoutInfo) (fun _ => ltac:(done))). }
  destruct (timeoutInfo c) as [ti|] eqn:Hinfo.
  - destruct (olderThan newTimeoutInfo ti); [exact Hc|].
    destruct (timeoutId c) as [id|] eqn:Hid.
    + cbn [stateOf].
      specialize (Hinstall (clearTimeout id c) (timersTracked_remove c id Hc)).
      apply Hinstall.
      intros t [Hne Ht]%list_elem_of_filter.
      destruct (isTimeoutTimer t) eqn:Hkind; [|done].
      destruct Hc as (_ & _ & Htimeout).
      destruct (Htimeout t Ht Hkind) as [_ Heq]. rewrite Hid in Heq.
      injection Heq as ->. done.
    + cbn [stateOf]. apply (Hinstall c Hc).
      intros t Ht. destruct (isTimeoutTimer t) eqn:Hkind; [|done].
      destruct Hc as (_ & _ & Htimeout).
      destruct (Htimeout t Ht Hkind) as [_ Heq]. congruence.
  - cbn [stateOf]. apply (Hinstall c Hc).
    intros t Ht. destruct (isTimeoutTimer t) eqn:Hkind; [|done].
    destruct Hc as (_ & _ & Htimeout).
    destruct (Htimeout t Ht Hkind) as [Hne _]. congruence.
Qed.


Lemma keeps_frame {A} (m : M Consensus A) :
  (forall c : Consensus,
      timers (stateOf (m c)) = timers c
      /\ nextTimerId (stateOf (m c)) = nextTimerId c
      /\ timeoutId (stateOf (m c)) = timeoutId c
      /\ timeoutInfo (stateOf (m c)) = timeoutInfo c) ->
  keeps m.
Proof.
  intros Hm c Hc. destruct (Hm c) as (? & ? & ? & ?).
  by apply (timersTracked_frame c).
Qed.

Lemma keeps_onNode {A} (m : M Node A) : keeps (onNode m).
Proof.
  apply keeps_frame. intros c. unfold onNode. by destruct (m (node c)).
Qed.

Lemma keeps_modify (f : Consensus -> Consensus) :
  (forall c, timersTracked c -> timersTracked (f c)) -> keeps (modify f).
Proof. intros Hf c Hc. by apply Hf. Qed.

Lemma keeps_updateToState : keeps updateToState.
Proof.
  intros c Hc. unfold updateToState.
  destruct (_ <? _); [exact Hc|]. cbn zeta.
  pose proof (selectProposer_state
                (set_state (mkState (lastBlockNumber (bc (node c)) + 1) 0
                                    (state_proposer (state c))) c)) as Hsel.
  destruct (selectProposer _) as [p c1|c1]; cbn [stateOf] in *; subst c1.
  - pose proof (timersTracked_arm c CallTryPropose TRANSITION_TIMEOUT_MS Hc
                  (fun Hk => ltac:(done)) None (fun Hk => ltac:(done))) as Harm.
    revert Harm. by apply timersTracked_frame.
  - revert Hc. by apply timersTracked_frame.
Qed.

Lemma keeps_tryRegister (block : Block) : keeps (tryRegister block).
Proof.
  apply keeps_frame. intros c. unfold tryRegister. cbn zeta.
  by destruct (_ =? 0).
Qed.

Lemma keeps_commit (block : Block) : keeps (commit block).
Proof.
  unfold commit. apply keeps_bind; [apply keeps_onNode|].
  intros [|]; [|apply keeps_ret].
  apply keeps_bind; [apply keeps_tryRegister|]. intros _. apply keeps_updateToState.
Qed.

Lemma keeps_handleConsensusMessage (msg : ConsensusMessage) :
  keeps (handleConsensusMessage msg).
Proof.
  intros c Hc. unfold handleConsensusMessage.
  destruct (status c); try exact Hc.
  destruct (msg_type msg); try exact Hc.
  destruct (msg_value msg) as [value|]; try exact Hc.
  destruct (negb _).
  - destruct (_ <? _); [|exact Hc]. revert Hc. by apply timersTracked_frame.
  - destruct (checkProposal value c); [|exact Hc].
    revert c Hc. apply keeps_bind; [apply keeps_commit|].
    intros _. apply keeps_modify. intros c. by apply timersTracked_frame.
Qed.

Lemma createTransaction_onNode_frame (txData : TxData) (flag : bool) (c : Consensus) :
  let c' := stateOf (onNode (createTransactionOf txData flag) c) in
  timers c' = timers c /\ nextTimerId c' = nextTimerId c
  /\ timeoutId c' = timeoutId c /\ timeoutInfo c' = timeoutInfo c
  /\ state c' = state c /\ status c' = status c /\ serverCalls c' = serverCalls c
  /\ clock c' = clock c.
Proof.
  cbn zeta. unfold onNode. by destruct (createTransactionOf _ _ _).
Qed.

Lemma keeps_stake (amount : Z) : keeps (stake amount).
Proof.
  apply keeps_frame. intros c. unfold stake.
  destruct (_ <=? 0); [done|]. cbn zeta.
  match goal with
  | |- context [onNode (createTransactionOf ?d ?f) c] =>
      pose proof (createTransaction_onNode_frame d f c) as Hf; cbn zeta in Hf;
      destruct (onNode (createTransactionOf d f) c) as [[tx|txs] c1|c1]
  end; cbn [stateOf] in *; destruct Hf as (? & ? & ? & ? & _); done.
Qed.

Lemma keeps_createBlockProposal : keeps createBlockProposal.
Proof.
  apply keeps_frame. intros c. unfold createBlockProposal.
  destruct (lastBlock _); [|done]. cbn zeta.
  destruct (getValidatorsVotedFor _ _ _); [|done].
  match goal with
  | |- context [onNode (createTransactionOf ?d ?f) c] =>
      pose proof (createTransaction_onNode_frame d f c) as Hf; cbn zeta in Hf;
      destruct (onNode (createTransactionOf d f) c) as [[tx|txs] c1|c1]
  end; cbn [stateOf] in *; destruct Hf as (? & ? & ? & ? & _); [|done|done].
  unfold executeTransaction.
  destruct (lastBlock _); cbn; done.
Qed.

Lemma keeps_tryPropose : keeps tryPropose.
Proof.
  intros c Hc. unfold tryPropose.
  destruct (isLocalProposer c) as [[|]|]; [| |exact Hc].
  - apply tracked_bind; [exact (keeps_scheduleTimeout _ _ c Hc)|]. intros _.
    apply keeps_bind; [apply keeps_createBlockProposal|]. intros proposal.
    apply keeps_handleConsensusMessage.
  - exact (keeps_scheduleTimeout _ _ c Hc).
Qed.

Lemma keeps_handleTimeout (timeoutInfo : TimeoutInfo) :
  keeps (handleTimeout timeoutInfo).
Proof.
  intros c Hc. unfold handleTimeout.
  destruct (_ || _); [exact Hc|]. cbn zeta.
  match goal with
  | |- context [selectProposer ?c0] =>
      pose proof (selectProposer_state c0) as Hsel;
      destruct (selectProposer c0) as [p c1|c1]
  end; cbn [stateOf] in Hsel; subst c1.
  - apply (keeps_tryPropose _). revert Hc. by apply timersTracked_frame.
  - revert Hc. by apply timersTracked_frame.
Qed.

Lemma keeps_fire (t : Timer) : keeps (fire t).
Proof.
  intros c Hc. unfold fire. cbn zeta.
  pose proof (timersTracked_remove c (timer_id t) Hc) as Hrem.
  destruct (timer_callback t);
    [exact (keeps_tryPropose _ Hrem)|exact (keeps_handleTimeout _ _ Hrem)].
Qed.

Lemma keeps_initBody : keeps initBody.
Proof.
  intros c Hc. unfold initBody. cbn zeta.
  destruct (if _ =? 1 then _ else _) as [currentStake|]; [|exact Hc].
  revert c Hc. apply keeps_bind.
  - destruct (_ && _); [apply keeps_stake|apply keeps_ret].
  - intros _ c Hc. unfold start. apply (keeps_updateToState _).
    revert Hc. by apply timersTracked_frame.
Qed.

Lemma timeoutTimers_at_most_one (c : Consensus) :
  timersTracked c ->
  (length (filter (fun t => isTimeoutTimer t = true) (timers c)) <= 1)%nat.
Proof.
  intros (Hnodup & _ & Htimeout).
  assert (forall t, t ∈ timers c -> isTimeoutTimer t = true ->
                    timeoutId c = Some (timer_id t)) as Hid.
  { intros t Ht Hk. by destruct (Htimeout t Ht Hk). }
  clear Htimeout. induction (timers c) as [|t ts IH]; [simpl; lia|].
  rewrite fmap_cons in Hnodup. apply NoDup_cons in Hnodup as [Hnotin Hnodup].
  rewrite filter_cons. destruct (decide (isTimeoutTimer t = true)) as [Hk|Hk].
  - destruct (filter (fun t => isTimeoutTimer t = true) ts) as [|t' rest] eqn:Hf;
      [simpl; lia|].
    exfalso.
    assert (t' ∈ filter (fun t => isTimeoutTimer t = true) ts)
      as [Hk' Ht']%list_elem_of_filter by (rewrite Hf; left).
    apply Hnotin, list_elem_of_fmap. exists t'. split; [|exact Ht'].
    pose proof (Hid t (list_elem_of_here _ _) Hk) as Hfirst.
    pose proof (Hid t' (list_elem_of_further _ _ _ Ht') Hk') as Hother. congruence.
  - apply IH; [exact Hnodup|]. intros t' Ht'. apply Hid. by apply list_elem_of_further.
Qed.

(** X20. One timeout timer at a time. An engine whose pending timers are
    tracked (distinct handles below [nextTimerId], every pending
    [handleTimeout] timer recorded in [timeoutId] with [timeoutInfo] set)
    has at most one [handleTimeout] timer pending, and stays tracked
    through [scheduleTimeout], [updateToState], [handleConsensusMessage],
    [tryPropose], [handleTimeout], the firing of a timer and [init],
    whether they return or throw. *)
Theorem timersTracked_preserved (c : Consensus) (Htracked : timersTracked c) :
  (length (filter (fun t => isTimeoutTimer t = true) (timers c)) <= 1)%nat
  /\ (forall (newTimeoutInfo : TimeoutInfo) (durationMs : Z),
        timersTracked (stateOf (scheduleTimeout newTimeoutInfo durationMs c)))
  /\ timersTracked (stateOf (updateToState c))
  /\ (forall msg : ConsensusMessage,
        timersTracked (stateOf (handleConsensusMessage msg c)))
  /\ timersTracked (stateOf (tryPropose c))
  /\ (forall timeoutInfo : TimeoutInfo,
        timersTracked (stateOf (handleTimeout timeoutInfo c)))
  /\ (forall t : Timer, timersTracked (stateOf (fire t c)))
  /\ timersTracked (Consensus_init c).
Proof.
  split_and!.
  - by apply timeoutTimers_at_most_one.
  - intros. exact (keeps_scheduleTimeout _ _ c Htracked).
  - exact (keeps_updateToState c Htracked).
  - intros. exact (keeps_handleConsensusMessage _ c Htracked).
  - exact (keeps_tryPropose c Htracked).
  - intros. exact (keeps_handleTimeout _ c Htracked).
  - intros. exact (keeps_fire _ c Htracked).
  - unfold Consensus_init. cbn zeta.
    match goal with
    | |- context [initBody ?c0] =>
        assert (timersTracked c0) as Hc0 by (revert Htracked; by apply timersTracked_frame);
        pose proof (keeps_initBody c0 Hc0) as Hinit;
        destruct (initBody c0) as [[] c1|c1]
    end; cbn [stateOf] in Hinit; [exact Hinit|].
    revert Hinit. by apply timersTracked_frame.
Qed.

End TimerFacts.

(** * Rounds, proposals and start-up *)

Section EngineRoundsFacts.
Context `{BlockApi, DbApi, FsApi, TxPoolApi, AddressApi, Config, Prng, DoubleArith,
          !ServerApi, TransactionApi, !ProposalApi}.

(** [scheduleTimeout] always returns; it touches the timers and the armed
    timeout only, and the key armed after it is not below the new one. *)
Lemma scheduleTimeout_returns (newTimeoutInfo : TimeoutInfo) (durationMs : Z)
    (c : Consensus) :
  exists c' : Consensus,
    scheduleTimeout newTimeoutInfo durationMs c = Returned tt c'
    /\ node c' = node c /\ state c' = state c /\ status c' = status c
    /\ serverCalls c' = serverCalls c /\ clock c' = clock c
    /\ exists armed : TimeoutInfo,
         timeoutInfo c' = Some armed /\ ~ keyLt armed newTimeoutInfo.
Proof.
  unfold scheduleTimeout.
  destruct (timeoutInfo c) as [ti|] eqn:Hinfo.
  - destruct (olderThan newTimeoutInfo ti) eqn:Hold.
    + exists c. split_and!; try done. exists ti. split; [done|].
      apply olderThan_keyLt in Hold. unfold keyLt in *. lia.
    + destruct (timeoutId c); eexists; (split; [reflexivity|]); cbn;
        split_and!; try done; exists newTimeoutInfo; (split; [done|apply keyLt_irrefl]).
  - eexists; (split; [reflexivity|]); cbn; split_and!; try done.
    exists newTimeoutInfo. split; [done|apply keyLt_irrefl].
Qed.



(** X22. [handleTimeout] and the round. A timeout for another height, or
    for a round below the current one, is ignored: the engine is as it
    was. A timeout for the current height and a round that is not below
    the current one moves to the round after the timeout's: when the
    election for that round returns a proposer that is not the local
    account, the call returns with that round and that proposer recorded,
    the node and the server calls as before, and a timeout armed whose key
    is not below the new height and round. *)
Theorem handleTimeout_round (expired : TimeoutInfo) (c : Consensus) :
  ((ti_number expired <> state_number (state c)
    \/ ti_round expired < state_round (state c)) ->
   handleTimeout expired c = Returned tt c)
  /\ (ti_number expired = state_number (state c) ->
      state_round (state c) <= ti_round expired ->
      forall p : option string,
        valueOf (selectProposer
                   (set_state (mkState (state_number (state c))
                                       (ti_round expired + 1)
                                       (state_proposer (state c))) c)) = Some p ->
        isLocalProposer
          (set_state (mkState (state_number (state c))
                              (ti_round expired + 1) p) c) = Some false ->
        exists c' : Consensus,
          handleTimeout expired c = Returned tt c'
          /\ state c' = mkState (state_number (state c)) (ti_round expired + 1) p
          /\ node c' = node c /\ serverCalls c' = serverCalls c
          /\ status c' = status c
          /\ exists armed : TimeoutInfo,
               timeoutInfo c' = Some armed
               /\ ~ keyLt armed (mkTimeoutInfo (state_number (state c))
                                               (ti_round expired + 1))).
Proof.
  unfold handleTimeout. split.
  - intros [Hn|Hr].
    + destruct (Z.eqb_spec (ti_number expired) (state_number (state c))); done.
    + destruct (Z.ltb_spec (ti_round expired) (state_round (state c))); [|lia].
      by rewrite orb_true_r.
  - intros Hn Hr p Hsel Hlocal.
    destruct (Z.eqb_spec (ti_number expired) (state_number (state c))); [|done].
    destruct (Z.ltb_spec (ti_round expired) (state_round (state c))); [lia|].
    cbn [negb orb]. cbn zeta.
    match type of Hsel with
    | valueOf (selectProposer ?c0) = _ =>
        pose proof (selectProposer_state c0) as Hstate;
        destruct (selectProposer c0) as [p' c1|c1]
    end; [|discriminate].
    cbn [stateOf valueOf] in Hstate, Hsel. subst c1. injection Hsel as ->.
    cbn [state set_state state_number state_round].
    unfold tryPropose.
    match goal with
    | |- context [isLocalProposer ?c0] =>
        assert (isLocalProposer c0 = Some false) as -> by exact Hlocal
    end.
    match goal with
    | |- context [scheduleTimeout ?ti ?ms ?c0] =>
        destruct (scheduleTimeout_returns ti ms c0)
          as (c' & -> & Hnode & Hst & Hstatus & Hcalls & _ & armed & Harmed & Hkey)
    end.
    exists c'. split_and!; try done. exists armed. done.
Qed.



Lemma createBlockProposal_returned (c c1 : Consensus) (proposal : Block) :
  createBlockProposal c = Returned proposal c1 ->
  exists (lb : Block) (validators : list (string * Z)) (tx : Transaction) (lb' : Block),
    lastBlock (bc (node c)) = Some lb
    /\ getValidatorsVotedFor c (number lb) (hash lb) = Some validators
    /\ state c1 = state c /\ status c1 = status c
    /\ serverCalls c1 = serverCalls c ++ [ExecuteTransaction tx]
    /\ lastBlock (bc (node c1)) = Some lb'
    /\ proposal = createBlock (hash lb') []
                    (getValidTransactions (tp (node c)) ++ [tx])
                    (state_number (state c))
                    (acc_address (account (node c))) validators.
Proof.
  unfold createBlockProposal.
  destruct (lastBlock (bc (node c))) as [lb|]; [|discriminate]. cbn zeta.
  destruct (getValidatorsVotedFor _ _ _) as [validators|] eqn:Hvoted; [|discriminate].
  match goal with
  | |- context [onNode (createTransactionOf ?d ?f) c] =>
      pose proof (createTransaction_onNode_frame d f c) as Hf; cbn zeta in Hf;
      destruct (onNode (createTransactionOf d f) c) as [[tx|txs] c0|c0]
  end; [|discriminate|discriminate].
  cbn [stateOf] in Hf. destruct Hf as (_ & _ & _ & _ & Hstate & Hstatus & Hcalls & _).
  destruct (lastBlock (bc (node (executeTransaction tx c0)))) as [lb'|] eqn:Hlb';
    [|discriminate].
  intros [= <- <-]. exists lb, validators, tx, lb'.
  split_and!; try done.
  unfold executeTransaction. cbn. by rewrite Hcalls.
Qed.

(** X24. The node's own proposal. For an engine that is RUNNING whose
    recorded proposer [p] passes [areSameAddresses] with the local address,
    and a [Block.createBlock] that stores the number, the proposer and the
    transactions it is given: once the proposal is built, it carries the
    valid pool transactions followed by the consensus update transaction,
    which the server has executed; and it is committed and broadcast
    exactly when [p] is the local address character for character and
    [validateProposedBlock] accepts the block. Otherwise [tryPropose]
    returns with nothing committed and nothing broadcast. *)
Theorem tryPropose_own_proposal (c c1 : Consensus) (p : string) (proposal : Block)
    (Hcreate : forall lh lv txs n pr vals,
        number (createBlock lh lv txs n pr vals) = n
        /\ proposer (createBlock lh lv txs n pr vals) = pr
        /\ transactions (createBlock lh lv txs n pr vals) = txs)
    (Hrunning : status c = RUNNING)
    (Hproposer : state_proposer (state c) = Some p)
    (Hlocal : areSameAddresses p (acc_address (account (node c))) = true)
    (Hbuilt : createBlockProposal
                (stateOf (scheduleTimeout
                            (mkTimeoutInfo (state_number (state c))
                                           (state_round (state c)))
                            PROPOSAL_TIMEOUT_MS c))
              = Returned proposal c1) :
  (exists tx : Transaction,
      transactions proposal = getValidTransactions (tp (node c)) ++ [tx]
      /\ serverCalls c1 = serverCalls c ++ [ExecuteTransaction tx])
  /\ tryPropose c
     = if bool_decide (p = acc_address (account (node c)))
          && validateProposedBlock proposal (bc (node c1))
       then (commit proposal ;;
             modify (broadcastConsensusMessage (mkMessage (Some proposal) PROPOSE))) c1
       else Returned tt c1.
Proof.
  destruct (scheduleTimeout_returns
              (mkTimeoutInfo (state_number (state c)) (state_round (state c)))
              PROPOSAL_TIMEOUT_MS c)
    as (c0 & Hsched & Hnode0 & Hstate0 & Hstatus0 & Hcalls0 & _).
  rewrite Hsched in Hbuilt. cbn [stateOf] in Hbuilt.
  destruct (createBlockProposal_returned _ _ _ Hbuilt)
    as (lb & validators & tx & lb' & _ & _ & Hstate1 & Hstatus1 & Hcalls1 & _ & ->).
  destruct (Hcreate (hash lb') [] (getValidTransactions (tp (node c0)) ++ [tx])
              (state_number (state c0)) (acc_address (account (node c0))) validators)
    as (Hnum & Hprop & Htxs).
  split.
  - exists tx. rewrite Htxs, Hcalls1, Hnode0, Hcalls0. done.
  - unfold tryPropose, isLocalProposer. rewrite Hproposer, Hlocal.
    unfold mbind at 1. unfold M_bind at 1. rewrite Hsched.
    unfold mbind at 1. unfold M_bind at 1. rewrite Hbuilt.
    unfold handleConsensusMessage. cbn [msg_type msg_value].
    rewrite Hstatus1, Hstatus0, Hrunning, Hnum, Hstate1.
    rewrite Z.eqb_refl. cbn [negb].
    unfold checkProposal. rewrite Hprop, Hstate1, Hstate0, Hproposer, Hnode0.
    destruct (validateProposedBlock _ _); cbn [negb andb];
      [|by rewrite andb_false_r].
    rewrite andb_true_r.
    destruct (decide (p = acc_address (account (node c)))) as [->|Hne].
    + by rewrite !bool_decide_eq_true_2.
    + rewrite !bool_decide_eq_false_2; [done|done|congruence].
Qed.

(** X25. The validators that voted for a block, for a number other than
    0. The call throws exactly when the db holds no registration for the
    number; otherwise an address is a validator with stake [s] exactly
    when its registration names the block's hash and the stake [s]. *)
Theorem getValidatorsVotedFor_lookup (c : Consensus) (n : Z) (hash : string)
    (Hnumber : n <> 0) :
  let registerRef := formatPath [inl CONSENSUS; inl NUMBER; inr n; inl REGISTER] in
  (getValidatorsVotedFor c n hash = None <->
   getRegistration (db (node c)) registerRef = None)
  /\ (forall (validators : list (string * Z))
             (registration : list (string * (string * Z))),
        getValidatorsVotedFor c n hash = Some validators ->
        getRegistration (db (node c)) registerRef = Some registration ->
        forall (addr : string) (s : Z),
          (addr, s) ∈ validators <-> (addr, (hash, s)) ∈ registration).
Proof.
  cbn zeta. unfold getValidatorsVotedFor.
  destruct (Z.eqb_spec n 0) as [|_]; [done|]. cbn zeta.
  destruct (getRegistration _ _) as [registration|]; [|done].
  split; [done|].
  intros validators ? [= <-] [= <-] addr s.
  rewrite list_elem_of_fmap. split.
  - intros ([a [h s']] & [= -> ->] & [Hhash Hreg]%list_elem_of_filter).
    cbn in *. by subst h.
  - intros Hreg. exists (addr, (hash, s)). split; [done|].
    apply list_elem_of_filter. done.
Qed.

End EngineRoundsFacts.

(** * More examples *)

Section MoreExamples.
Import Sample.
Local Existing Instances blockApi dbApi fsApi txPoolApi addressApi config prng
  doubleArith serverApi hashGlobApi transactionApi proposalApi.

Lemma merge_false_partial_witness :
  chain (stateOf (merge gapSection twoBlocks)) = [b0; b1; b2]
  /\ exists (skipped appended : list Block) (b : Block) (rest : list Block),
       gapSection = skipped ++ appended ++ b :: rest
       /\ (length skipped <= 1)%nat
       /\ mergeBlocks appended twoBlocks
          = Returned true (stateOf (merge gapSection twoBlocks))
       /\ number b <> lastBlockNumber (stateOf (merge gapSection twoBlocks)) + 1.
Proof.
  split; [vm_compute; reflexivity|].
  destruct (merge_false_partial twoBlocks (stateOf (merge gapSection twoBlocks))
              gapSection) as [[Hchain _]|Hpartial].
  - vm_compute. reflexivity.
  - vm_compute in Hchain. discriminate Hchain.
  - exact Hpartial.
Defined.

Lemma merge_true_last_witness :
  syncedAfterStartup (stateOf (merge [b0; b1] (store [b0] (Some []) false))) = false
  /\ lastBlock (stateOf (merge [b0; b1] (store [b0] (Some []) false)))
     = Some (asBlock b1).
Proof.
  destruct (merge_true_last (store [b0] (Some []) false)
              (stateOf (merge [b0; b1] (store [b0] (Some []) false)))
              [b0; b1] b1)
    as (Hsync & _ & [Hlast|(Hone & _)]).
  - reflexivity.
  - vm_compute. reflexivity.
  - split; [exact Hsync|exact Hlast].
  - discriminate Hone.
Defined.

Lemma init_chain_witness :
  exists (first : Block) (rest : list Block),
    chain (stateOf (init true (bc restarted))) = first :: rest
    /\ hash (parse first) = hash genesis.
Proof.
  destruct (init_chain true (bc restarted) (stateOf (init true (bc restarted))))
    as (_ & _ & [Hsame|[Hgenesis|(first & rest & Hchain & Hhash & _)]]).
  - vm_compute. reflexivity.
  - vm_compute in Hsame. discriminate Hsame.
  - vm_compute in Hgenesis. discriminate Hgenesis.
  - exists first, rest. split; [exact Hchain|exact Hhash].
Defined.

Lemma writeChain_existing_witness :
  writeChain (writeChain twoBlocks) = writeChain twoBlocks.
Proof.
  apply writeChain_existing.
  apply (bool_decide_unpack
           (Forall (fun b => existsSync (disk (writeChain twoBlocks))
                               (pathToBlock (writeChain twoBlocks) b) = true)
                   (chain (writeChain twoBlocks)))).
  vm_compute. exact I.
Defined.

Lemma getChainSection_getBlockByNumber_witness :
  getBlockByNumber (writeChain twoBlocks) 1
  = last (getChainSection (writeChain twoBlocks) (Some 1) (Some 2))
  /\ getBlockByNumber (writeChain twoBlocks) 1 = Some b1.
Proof.
  split; [|vm_compute; reflexivity].
  destruct (getChainSection_getBlockByNumber (writeChain twoBlocks) 1) as [Hlast _].
  - lia.
  - exact Hlast.
Defined.


Lemma createSingleTransaction_again_witness :
  createEach [1%nat; 1%nat] true (batchObjects, counting)
  = Returned
      [newTransaction "key" (set_td_nonce (Some (Some 7)) (batchEntry None));
       newTransaction "key" (set_td_nonce (Some (Some 7)) (batchEntry None))]
      (stateOf (createSingleTransaction 1 true (batchObjects, counting)))
  /\ nonce (snd (stateOf (createSingleTransaction 1 true (batchObjects, counting))))
     = Some 8.
Proof.
  split; [|vm_compute; reflexivity].
  refine (proj2 (createSingleTransaction_again 1 true true (batchObjects, counting)
                   (stateOf (createSingleTransaction 1 true (batchObjects, counting)))
                   (newTransaction "key"
                      (set_td_nonce (Some (Some 7)) (batchEntry None))) _)).
  vm_compute. reflexivity.
Defined.

Lemma selectProposerWith_interval_witness :
  selectProposerWith validatorsABC "deadbeef" 0 = Some "B"%string
  /\ 0 < stakeOf validatorsABC "B".
Proof.
  assert (Forall (fun e : string * Z => 0 <= snd e) validatorsABC) as Hall.
  { apply (bool_decide_unpack _). vm_compute. exact I. }
  destruct (selectProposerWith_interval validatorsABC "deadbeef" 0)
    as (_ & _ & Hpositive).
  - apply (bool_decide_unpack _). vm_compute. exact I.
  - split; [|vm_compute; discriminate].
    intros a s Hin. exact (proj1 (Forall_forall _ _) Hall (a, s) Hin).
  - vm_compute. discriminate.
  - split; [vm_compute; reflexivity|]. apply Hpositive. vm_compute. reflexivity.
Defined.


Lemma selectProposer_bootstrap_witness :
  selectProposer genesisEngine = Returned (Some "A"%string) genesisEngine.
Proof.
  destruct (selectProposer_bootstrap genesisEngine) as (Hlocal & _ & _).
  - reflexivity.
  - intros seed. split; [vm_compute; discriminate|vm_compute; reflexivity].
  - intros seed total _ _. vm_compute. reflexivity.
  - apply Hlocal; [vm_compute; reflexivity|vm_compute; discriminate].
Defined.

Lemma timersTracked_preserved_witness :
  timersTracked (Consensus_init engineB)
  /\ timersTracked (stateOf (fire (mkTimer 0 (CallHandleTimeout (mkTimeoutInfo 2 0)) 10000)
                                  engineB)).
Proof.
  destruct (timersTracked_preserved engineB) as (_ & _ & _ & _ & _ & _ & Hfire & Hinit).
  - split_and!.
    + apply NoDup_singleton.
    + intros t ->%list_elem_of_singleton. vm_compute. lia.
    + intros t ->%list_elem_of_singleton _. split; [discriminate|reflexivity].
  - split; [exact Hinit|apply Hfire].
Defined.


Lemma tryPropose_own_proposal_witness :
  validateProposedBlock proposalA (bc (node (stateOf builtA))) = true
  /\ tryPropose proposerA
     = if bool_decide ("A"%string = acc_address (account (node proposerA)))
          && validateProposedBlock proposalA (bc (node (stateOf builtA)))
       then (commit proposalA ;;
             modify (broadcastConsensusMessage (mkMessage (Some proposalA) PROPOSE)))
              (stateOf builtA)
       else Returned tt (stateOf builtA).
Proof.
  split; [vm_compute; reflexivity|].
  refine (proj2 (tryPropose_own_proposal proposerA (stateOf builtA) "A" proposalA
                   _ _ _ _ _)).
  - intros. split_and!; reflexivity.
  - reflexivity.
  - reflexivity.
  - reflexivity.
  - vm_compute. reflexivity.
Defined.

Lemma getValidatorsVotedFor_lookup_witness :
  exists validators : list (string * Z),
    getValidatorsVotedFor proposerA 1 "deadbeef" = Some validators
    /\ ("A"%string, 100) ∈ validators
    /\ ~ ("C"%string, 100) ∈ validators.
Proof.
  destruct (getValidatorsVotedFor_lookup proposerA 1 "deadbeef") as [_ Hlookup];
    [lia|].
  assert (getValidatorsVotedFor proposerA 1 "deadbeef"
          = Some (default [] (getValidatorsVotedFor proposerA 1 "deadbeef")))
    as Hvoted by (vm_compute; reflexivity).
  exists (default [] (getValidatorsVotedFor proposerA 1 "deadbeef")).
  split; [exact Hvoted|].
  specialize (Hlookup _ _ Hvoted eq_refl).
  split.
  - apply Hlookup. apply (bool_decide_unpack _). vm_compute. exact I.
  - intros Hin%Hlookup. revert Hin. apply (bool_decide_unpack _).
    vm_compute. exact I.
Defined.

End MoreExamples.

